(** * RAG engine: chunker, identity assigner, index manager, query engine

    A shallow embedding of [scripts/rag_engine.py], of the Markdown and
    text loaders of [scripts/document_loader.py] and of the handlers of
    [app.py] that call the engine.

    Conventions of the embedding:
    - a Python [str] is the list of its code points ([pystr]); [len] is the
      length of that list, so a CJK character counts for one, as in Python;
    - a Python [int] is a [Z]; [//] is [Z.div] (both round towards minus
      infinity for the positive divisor used here);
    - a Python [float] is a binary64 number: a rational that the format
      holds, an infinity or a NaN; every operation rounds its exact result
      to the nearest number of the format, ties to the even significand;
    - a [while] loop is a structurally recursive function on a fuel counter
      that answers [None] when the fuel runs out before the loop exits;
    - a call that may raise returns an [outcome]. *)

From Stdlib Require Import ZArith NArith QArith Qround Qpower Ascii String List Lia.
From Stdlib Require Import DecimalString DecimalPos DecimalZ Lqa Sorted.
From Stdlib Require Floats.
From stdpp Require Import base list gmap.

Import ListNotations.
Local Open Scope Z_scope.

(** ** Python strings *)

Module PyStr.

(** A [str] as the list of its code points. *)
Abbreviation pystr := (list N).

Definition len (s : pystr) : Z := Z.of_nat (length s).

(** Decoder for UTF-8 literals, so that the literals of the source can be
    written as they are: [need] continuation bytes are still expected and
    [acc] holds the bits read so far. *)
Fixpoint utf8_go (need : nat) (acc : N) (bs : list N) : pystr :=
  match bs with
  | [] => []
  | b :: rest =>
      match need with
      | O =>
          if (b <? 128)%N then b :: utf8_go 0 0%N rest
          else if (b <? 224)%N then utf8_go 1 (N.land b 31) rest
          else if (b <? 240)%N then utf8_go 2 (N.land b 15) rest
          else utf8_go 3 (N.land b 7) rest
      | S O => (acc * 64 + N.land b 63)%N :: utf8_go 0 0%N rest
      | S n => utf8_go n (acc * 64 + N.land b 63)%N rest
      end
  end.

Definition lit (s : string) : pystr :=
  utf8_go 0 0%N (List.map N_of_ascii (list_ascii_of_string s)).

(** [str.isspace] on one code point: the characters [str.strip()] removes. *)
Definition isspace (c : N) : bool :=
  ((9 <=? c) && (c <=? 13) || (28 <=? c) && (c <=? 32)
   || (c =? 133) || (c =? 160) || (c =? 5760)
   || (8192 <=? c) && (c <=? 8202)
   || (c =? 8232) || (c =? 8233) || (c =? 8239) || (c =? 8287)
   || (c =? 12288))%N.

Fixpoint lstrip (s : pystr) : pystr :=
  match s with
  | [] => []
  | c :: s' => if isspace c then lstrip s' else s
  end.

Definition rstrip (s : pystr) : pystr := rev (lstrip (rev s)).

(** [s.strip()] *)
Definition strip (s : pystr) : pystr := rstrip (lstrip s).

(** A string that is empty or starts with a character that is not white
    space, as a left-stripped string does. *)
Definition starts_clean (s : pystr) : Prop :=
  match s with
  | [] => True
  | c :: _ => isspace c = false
  end.

(** A non-empty string whose first and last characters are not white
    space. *)
Definition stripped_nonempty (s : pystr) : Prop :=
  s <> [] /\ starts_clean s /\ starts_clean (rev s).

(** Truth value of a string: [if s:] holds for the non-empty ones. *)
Definition truthy (s : pystr) : bool :=
  match s with [] => false | _ :: _ => true end.

(** Index normalisation of a slice bound against a sequence of length [n]:
    a negative bound counts from the end, and every bound is clipped to
    [0, n]. *)
Definition clamp_index (n i : Z) : Z :=
  if i <? 0 then Z.max (i + n) 0 else Z.min i n.

(** [s[lo:hi]] *)
Definition slice (s : pystr) (lo hi : Z) : pystr :=
  let l := clamp_index (len s) lo in
  let h := clamp_index (len s) hi in
  firstn (Z.to_nat (h - l)) (skipn (Z.to_nat l) s).

(** [s[:hi]] *)
Definition slice_to (s : pystr) (hi : Z) : pystr := slice s 0 hi.

(** [s.startswith(p)] *)
Fixpoint startswith (p s : pystr) : bool :=
  match p, s with
  | [], _ => true
  | _ :: _, [] => false
  | a :: p', b :: s' => (a =? b)%N && startswith p' s'
  end.

(** Left-to-right scan keeping the last index at which [sep] occurs; [i]
    is the index of the head of [s] and [acc] the last match so far. *)
Fixpoint rfind_from (sep s : pystr) (i acc : Z) : Z :=
  match s with
  | [] => if startswith sep [] then i else acc
  | _ :: s' => rfind_from sep s' (i + 1) (if startswith sep s then i else acc)
  end.

(** [s.rfind(sep)]: the highest index where [sep] occurs in [s], or -1. *)
Definition rfind (s sep : pystr) : Z := rfind_from sep s 0 (-1).

(** [str(n)] for a Python [int]. *)
Definition str_of_int (n : Z) : pystr :=
  List.map N_of_ascii
    (list_ascii_of_string (DecimalString.NilZero.string_of_int (Z.to_int n))).

End PyStr.
Import PyStr.

(** ** Calls that may raise *)

(** What a call does: it returns a value, raises an instance of
    [Exception] (kept as its [str(e)]), or never comes back. *)
Inductive outcome (A : Type) : Type :=
| Returns (a : A)
| Raises (e : pystr)
| Diverges.
Arguments Returns {A} _.
Arguments Raises {A} _.
Arguments Diverges {A}.

(** A list comprehension [[f(a) for a in l]]: the first call that does
    not return ends it. *)
Fixpoint map_outcome {A B : Type} (f : A -> outcome B) (l : list A)
  : outcome (list B) :=
  match l with
  | [] => Returns []
  | a :: l' =>
      match f a with
      | Returns b =>
          match map_outcome f l' with
          | Returns bs => Returns (b :: bs)
          | Raises e => Raises e
          | Diverges => Diverges
          end
      | Raises e => Raises e
      | Diverges => Diverges
      end
  end.

(** ** The chunker: [_split_text] *)

(** The boundary markers, in the order the source tries them. *)
Definition separators : list pystr :=
  [lit "。"; lit "！"; lit "？"; [10; 10]%N; [10]%N; lit "."; lit "!"; lit "?"].

(** The [for sep in ...] loop: the first marker whose last occurrence in
    the window lies beyond [chunk_size // 2] cuts the window just after
    that position; with no such marker the window is kept. *)
Fixpoint snap_to_boundary (seps : list pystr) (chunk : pystr) (chunk_size : Z)
  : pystr :=
  match seps with
  | [] => chunk
  | sep :: rest =>
      let last_sep := rfind chunk sep in
      if chunk_size / 2 <? last_sep then slice_to chunk (last_sep + 1)
      else snap_to_boundary rest chunk chunk_size
  end.

(** The window of one iteration of the [while] loop, before stripping. *)
Definition window (text : pystr) (chunk_size start : Z) : pystr :=
  let end_ := start + chunk_size in
  let chunk := slice text start end_ in
  if end_ <? len text then snap_to_boundary separators chunk chunk_size
  else chunk.

(** State of the [while] loop: [start] and the chunks appended so far. *)
Record split_state := SplitState { st_start : Z; st_chunks : list pystr }.

(** One iteration of the loop body. *)
Definition split_step (text : pystr) (chunk_size chunk_overlap : Z)
  (s : split_state) : split_state :=
  let chunk := window text chunk_size (st_start s) in
  {| st_start := st_start s + (len chunk - chunk_overlap);
     st_chunks := st_chunks s ++ [strip chunk] |}.

(** [while start < len(text): ...] *)
Fixpoint split_loop (fuel : nat) (text : pystr) (chunk_size chunk_overlap : Z)
  (s : split_state) : option (list pystr) :=
  if st_start s <? len text then
    match fuel with
    | O => None
    | S fuel' =>
        split_loop fuel' text chunk_size chunk_overlap
          (split_step text chunk_size chunk_overlap s)
    end
  else Some (st_chunks s).

(** [_split_text(text, chunk_size, chunk_overlap)] *)
Definition _split_text (fuel : nat) (text : pystr)
  (chunk_size chunk_overlap : Z) : option (list pystr) :=
  if len text <=? chunk_size then Some [text]
  else
    match split_loop fuel text chunk_size chunk_overlap
            {| st_start := 0; st_chunks := [] |} with
    | Some chunks => Some (List.filter (fun c => truthy (strip c)) chunks)
    | None => None
    end.

(** ** The identity assigner: [_get_doc_id] *)

(** [hashlib.md5]: RFC 1321 on bytes, 32-bit words as [Z] with the
    wrap-around written out. *)
Module MD5.

Definition mask32 : Z := 4294967295.
Definition add32 (a b : Z) : Z := Z.land (a + b) mask32.
Definition not32 (a : Z) : Z := Z.lxor a mask32.
Definition rotl32 (x c : Z) : Z :=
  Z.lor (Z.land (Z.shiftl x c) mask32) (Z.shiftr x (32 - c)).

Definition shifts : list Z :=
  [7; 12; 17; 22; 7; 12; 17; 22; 7; 12; 17; 22; 7; 12; 17; 22;
   5; 9; 14; 20; 5; 9; 14; 20; 5; 9; 14; 20; 5; 9; 14; 20;
   4; 11; 16; 23; 4; 11; 16; 23; 4; 11; 16; 23; 4; 11; 16; 23;
   6; 10; 15; 21; 6; 10; 15; 21; 6; 10; 15; 21; 6; 10; 15; 21].

Definition sines : list Z :=
  [3614090360; 3905402710; 606105819; 3250441966; 4118548399; 1200080426;
   2821735955; 4249261313; 1770035416; 2336552879; 4294925233; 2304563134;
   1804603682; 4254626195; 2792965006; 1236535329; 4129170786; 3225465664;
   643717713; 3921069994; 3593408605; 38016083; 3634488961; 3889429448;
   568446438; 3275163606; 4107603335; 1163531501; 2850285829; 4243563512;
   1735328473; 2368359562; 4294588738; 2272392833; 1839030562; 4259657740;
   2763975236; 1272893353; 4139469664; 3200236656; 681279174; 3936430074;
   3572445317; 76029189; 3654602809; 3873151461; 530742520; 3299628645;
   4096336452; 1126891415; 2878612391; 4237533241; 1700485571; 2399980690;
   4293915773; 2240044497; 1873313359; 4264355552; 2734768916; 1309151649;
   4149444226; 3174756917; 718787259; 3951481745].

(** The four chaining words. *)
Record state := State { wa : Z; wb : Z; wc : Z; wd : Z }.

Definition init : state :=
  {| wa := 1732584193; wb := 4023233417; wc := 2562383102; wd := 271733878 |}.

(** Little-endian bytes of a word, [n] of them. *)
Fixpoint le_bytes (n : nat) (w : Z) : list Z :=
  match n with
  | O => []
  | S n' => Z.land w 255 :: le_bytes n' (Z.shiftr w 8)
  end.

(** The little-endian word of the first bytes of [bs], [n] of them. *)
Fixpoint le_word (n : nat) (bs : list Z) : Z :=
  match n, bs with
  | S n', b :: bs' => b + 256 * le_word n' bs'
  | _, _ => 0
  end.

Definition word_at (block : list Z) (g : Z) : Z :=
  le_word 4 (skipn (Z.to_nat (4 * g)) block).

Definition round (block : list Z) (i : Z) (s : state) : state :=
  let '(State a b c d) := s in
  let '(f, g) :=
    if i <? 16 then (Z.lor (Z.land b c) (Z.land (not32 b) d), i)
    else if i <? 32 then
      (Z.lor (Z.land d b) (Z.land (not32 d) c), (5 * i + 1) mod 16)
    else if i <? 48 then (Z.lxor b (Z.lxor c d), (3 * i + 5) mod 16)
    else (Z.lxor c (Z.lor b (not32 d)), (7 * i) mod 16) in
  let f' := add32 (add32 (add32 f a) (nth (Z.to_nat i) sines 0))
                  (word_at block g) in
  {| wa := d; wd := c; wc := b;
     wb := add32 b (rotl32 f' (nth (Z.to_nat i) shifts 0)) |}.

Definition compress (s : state) (block : list Z) : state :=
  let r := fold_left (fun acc i => round block (Z.of_nat i) acc) (seq 0 64) s in
  {| wa := add32 (wa s) (wa r); wb := add32 (wb s) (wb r);
     wc := add32 (wc s) (wc r); wd := add32 (wd s) (wd r) |}.

(** The message followed by the 1 bit, zeros up to 56 modulo 64, and
    the bit length on 8 bytes. *)
Definition pad (msg : list Z) : list Z :=
  let n := Z.of_nat (length msg) in
  let zeros := (55 - n) mod 64 in
  msg ++ [128] ++ repeat 0 (Z.to_nat zeros) ++ le_bytes 8 ((8 * n) mod 2 ^ 64).

Fixpoint blocks (n : nat) (bs : list Z) (s : state) : state :=
  match n with
  | O => s
  | S n' => blocks n' (skipn 64 bs) (compress s (firstn 64 bs))
  end.

Definition digest (msg : list Z) : list Z :=
  let p := pad msg in
  let s := blocks (Nat.div (length p) 64) p init in
  le_bytes 4 (wa s) ++ le_bytes 4 (wb s) ++ le_bytes 4 (wc s) ++ le_bytes 4 (wd s).

Definition hex_digit (n : Z) : N :=
  if n <? 10 then Z.to_N (48 + n) else Z.to_N (87 + n).

Definition hex_of_byte (b : Z) : list N :=
  [hex_digit (Z.shiftr b 4); hex_digit (Z.land b 15)].

(** [hashlib.md5(msg).hexdigest()] *)
Definition hexdigest (msg : list Z) : list N := flat_map hex_of_byte (digest msg).

End MD5.

(** The code points [str.encode()] refuses: the surrogates. *)
Definition is_surrogate (c : N) : bool := ((55296 <=? c) && (c <=? 57343))%N.

(** The UTF-8 bytes of one code point that is not a surrogate. *)
Definition utf8_encode_char (c : N) : list Z :=
  let z := Z.of_N c in
  if z <? 128 then [z]
  else if z <? 2048 then [192 + Z.shiftr z 6; 128 + Z.land z 63]
  else if z <? 65536 then
    [224 + Z.shiftr z 12; 128 + Z.land (Z.shiftr z 6) 63; 128 + Z.land z 63]
  else
    [240 + Z.shiftr z 18; 128 + Z.land (Z.shiftr z 12) 63;
     128 + Z.land (Z.shiftr z 6) 63; 128 + Z.land z 63].

(** The surrogates a string starts with. *)
Fixpoint surrogate_run (s : pystr) : pystr :=
  match s with
  | [] => []
  | c :: s' => if is_surrogate c then c :: surrogate_run s' else []
  end.

(** A code point below 65536 on four hexadecimal digits. *)
Definition hex4 (c : N) : pystr :=
  let z := Z.of_N c in
  [MD5.hex_digit (Z.land (Z.shiftr z 12) 15); MD5.hex_digit (Z.land (Z.shiftr z 8) 15);
   MD5.hex_digit (Z.land (Z.shiftr z 4) 15); MD5.hex_digit (Z.land z 15)].

(** [str(e)] of the [UnicodeEncodeError] that [str.encode()] raises on
    the surrogates [run] met at the index [start]. *)
Definition encode_error (start : Z) (run : pystr) : pystr :=
  match run with
  | [c] =>
      lit "'utf-8' codec can't encode character '\u" ++ hex4 c
      ++ lit "' in position " ++ str_of_int start
      ++ lit ": surrogates not allowed"
  | _ =>
      lit "'utf-8' codec can't encode characters in position "
      ++ str_of_int start ++ lit "-" ++ str_of_int (start + len run - 1)
      ++ lit ": surrogates not allowed"
  end.

(** A string [str.encode()] accepts: no surrogate in it. *)
Definition encodable (s : pystr) : Prop :=
  Forall (fun c => is_surrogate c = false) s.

(** [s.encode()] from the index [i] on. *)
Fixpoint utf8_encode_from (i : Z) (s : pystr) : outcome (list Z) :=
  match s with
  | [] => Returns []
  | c :: s' =>
      if is_surrogate c then Raises (encode_error i (surrogate_run s))
      else
        match utf8_encode_from (i + 1) s' with
        | Returns bytes => Returns (utf8_encode_char c ++ bytes)
        | Raises e => Raises e
        | Diverges => Diverges
        end
  end.

(** [s.encode()]: the UTF-8 bytes of the string, or the
    [UnicodeEncodeError] of its first surrogates. *)
Definition utf8_encode (s : pystr) : outcome (list Z) := utf8_encode_from 0 s.

(** A lowercase hexadecimal digit. *)
Definition is_hex (c : N) : Prop :=
  48 <= Z.of_N c <= 57 \/ 97 <= Z.of_N c <= 102.

(** [f"{hash_val}_{chunk_index}"] *)
Definition make_id (hash_val : pystr) (chunk_index : Z) : pystr :=
  hash_val ++ lit "_" ++ str_of_int chunk_index.

(** [_get_doc_id(file_path, chunk_index)] *)
Definition _get_doc_id (file_path : pystr) (chunk_index : Z) : outcome pystr :=
  match utf8_encode file_path with
  | Returns bytes =>
      let hash_val := firstn 8 (MD5.hexdigest bytes) in
      Returns (make_id hash_val chunk_index)
  | Raises e => Raises e
  | Diverges => Diverges
  end.

(** ** Floats *)

Local Open Scope Q_scope.

(** A Python [float]: a binary64 number.  A finite one is kept as the
    rational it stands for (the two zeros are not told apart: nothing
    here divides by a zero or shows one), next to the two infinities and
    NaN. *)
Inductive pyfloat := Real (q : Q) | PInf | NInf | NaN.

Definition pow2 (e : Z) : Q := 2 ^ e.

(** The integer part of the binary logarithm of a positive rational. *)
Definition Qlog2 (q : Q) : Z :=
  let k := (Z.log2 (Qnum q) - Z.log2 (Zpos (Qden q)))%Z in
  if Qle_bool (pow2 k) q then k else (k - 1)%Z.

(** Rounding to the nearest integer, ties to the even one. *)
Definition round_half_even (q : Q) : Z :=
  let f := Qfloor q in
  match Qcompare (q - inject_Z f) (1 # 2) with
  | Lt => f
  | Gt => (f + 1)%Z
  | Eq => if Z.even f then f else (f + 1)%Z
  end.

(** The exponent of the last place of the binary64 numbers around a
    positive [q]: 53 significant bits, and no exponent below that of the
    subnormal numbers. *)
Definition ulp_exponent (q : Q) : Z := Z.max (Qlog2 q - 52) (-1074).

(** The multiple of [2 ^ e] nearest to [q], ties to the even multiple. *)
Definition round_to (e : Z) (q : Q) : Q :=
  inject_Z (round_half_even (q / pow2 e)) * pow2 e.

(** A magnitude rounded to 53 significant bits. *)
Definition round_magnitude (q : Q) : Q := round_to (ulp_exponent q) q.

(** The binary64 number an exact result is rounded to: the nearest one,
    ties to the even significand, and an infinity from [2 ^ 1024] on. *)
Definition binary64 (q : Q) : pyfloat :=
  if Qle_bool 0 q then
    let r := round_magnitude q in
    if Qle_bool (pow2 1024) r then PInf else Real (Qred r)
  else
    let r := round_magnitude (- q) in
    if Qle_bool (pow2 1024) r then NInf else Real (Qred (- r)).

(** [x <= y] *)
Definition fleb (x y : pyfloat) : bool :=
  match x, y with
  | NaN, _ | _, NaN => false
  | NInf, _ | _, PInf => true
  | Real a, Real b => Qle_bool a b
  | _, _ => false
  end.

(** [x < y] *)
Definition fltb (x y : pyfloat) : bool :=
  match x, y with
  | NaN, _ | _, NaN => false
  | PInf, _ | _, NInf => false
  | Real a, Real b => negb (Qle_bool b a)
  | _, _ => true
  end.

Definition fle (x y : pyfloat) : Prop := fleb x y = true.

(** [x - y] *)
Definition fsub (x y : pyfloat) : pyfloat :=
  match x, y with
  | NaN, _ | _, NaN => NaN
  | Real a, Real b => binary64 (a - b)
  | Real _, PInf => NInf
  | Real _, NInf => PInf
  | PInf, PInf => NaN
  | PInf, _ => PInf
  | NInf, NInf => NaN
  | NInf, _ => NInf
  end.

(** [x / 2.0] *)
Definition fdiv2 (x : pyfloat) : pyfloat :=
  match x with
  | Real a => binary64 (a / 2)
  | _ => x
  end.

(** ** Distance to similarity *)

(** [max(a, b)] of Python: the first argument unless the second is
    strictly greater. *)
Definition py_max (a b : pyfloat) : pyfloat := if fltb a b then b else a.

(** [similarity = max(0.0, 1.0 - distance / 2.0)] *)
Definition similarity (distance : pyfloat) : pyfloat :=
  py_max (Real 0) (fsub (Real 1) (fdiv2 distance)).

(** [round(x, 4)]: the exact value of [x] is rounded to four decimals,
    ties to the even digit, and the decimal is read back as a float; an
    infinity or a NaN is returned as it is. *)
Definition round4 (x : pyfloat) : pyfloat :=
  match x with
  | Real q => binary64 (inject_Z (round_half_even (q * 10000)) / 10000)
  | _ => x
  end.

(** The same conversion on the binary64 numbers of the kernel, to check
    the rounding above against. *)
Module Hardware.
Import PrimFloat.

(** The value of a float of the kernel. *)
Definition of_float (f : PrimFloat.float) : pyfloat :=
  match FloatOps.Prim2SF f with
  | SpecFloat.S754_zero _ => Real 0
  | SpecFloat.S754_infinity s => if s then NInf else PInf
  | SpecFloat.S754_nan => NaN
  | SpecFloat.S754_finite s m e =>
      Real (Qred ((if s then -1 else 1) * inject_Z (Zpos m) * pow2 e))
  end.

(** [max(0.0, 1.0 - distance / 2.0)] *)
Definition similarity (distance : PrimFloat.float) : PrimFloat.float :=
  let x := PrimFloat.sub PrimFloat.one (PrimFloat.div distance PrimFloat.two) in
  if PrimFloat.ltb PrimFloat.zero x then x else PrimFloat.zero.

(** Distances to compare on: the end points, values next to them,
    subnormal, huge and negative numbers, infinities and NaN. *)
Definition samples : list PrimFloat.float :=
  [0%float; 1%float; 2%float; 0x1.ff6fd21ff2e49p-1%float;
   0x1.996fa82e87d2cp-3%float; 0x1.999999999999ap-4%float;
   0x1.3333333333333p-2%float; 0x0.00000000007e8p-1022%float;
   0x0.0000000000001p-1022%float; 0x1.fffffffffffffp+0%float;
   0x1.0000000000001p+1%float; 3%float; (-1)%float;
   (-0x1.1ccf385ebc8ap+1023)%float; 0x1.1ccf385ebc8ap+1023%float;
   0x1.fffffffffffffp+1023%float; (-0x1.fffffffffffffp+1023)%float;
   0.5%float; 0x1.6666666666666p-1%float; 0x1.5555555555555p+0%float;
   0x1.70ef54646d497p-57%float; 0x1p-1022%float; 0x1.fb49140a1644fp-54%float;
   0x1.f9add3739635fp-4%float; PrimFloat.infinity; PrimFloat.neg_infinity;
   PrimFloat.nan].

(** Decimal literals of Python and the binary64 numbers they denote. *)
Definition literals : list (Q * PrimFloat.float) :=
  [(9989 # 10000, 0x1.ff6fd21ff2e49p-1%float);
   (19992 # 100000, 0x1.996fa82e87d2cp-3%float);
   (9 # 10, 0x1.ccccccccccccdp-1%float);
   (90003 # 100000, 0x1.ccd0bb6ed6777p-1%float);
   (5006 # 10000, 0x1.004ea4a8c154dp-1%float);
   (1 # 10, 0x1.999999999999ap-4%float)]%Q.

End Hardware.

Local Close Scope Q_scope.

(** ** Documents, metadata and results *)

(** A value stored in a metadata dict. *)
Inductive pyval := PStr (s : pystr) | PInt (n : Z).

#[export] Instance pyval_eq_dec : EqDecision pyval.
Proof. solve_decision. Defined.

(** A metadata dict. *)
Abbreviation metadata := (gmap pystr pyval).

(** [{"text": ..., "metadata": ...}]: a raw chunk of the loader and a
    chunk of [all_chunks] have the same shape. *)
Record chunk := Chunk { text : pystr; meta : metadata }.

(** The keys of the [extra] dicts the format loaders pass. *)
Inductive extra_key := KSection | KSheet | KRows.

Definition extra_key_name (k : extra_key) : pystr :=
  match k with
  | KSection => lit "section"
  | KSheet => lit "sheet"
  | KRows => lit "rows"
  end.

(** What a format loader hands to [_build_chunk] besides the path. *)
Record part := Part {
  part_text : pystr;
  part_page : Z;
  part_extra : list (extra_key * pystr)
}.

(** [metadata.update(extra)] *)
Definition update_extra (m : metadata) (extra : list (extra_key * pystr))
  : metadata :=
  fold_left (fun acc kv => <[extra_key_name (fst kv) := PStr (snd kv)]> acc)
    extra m.

(** [_build_chunk(text, source, page, extra)]; [name] is [Path(source).name]. *)
Definition _build_chunk (name : pystr) (source : pystr) (p : part) : chunk :=
  let metadata : metadata :=
    <[lit "source" := PStr source]>
      (<[lit "filename" := PStr name]>
         (<[lit "page" := PInt (part_page p)]> ∅)) in
  {| text := strip (part_text p);
     meta := update_extra metadata (part_extra p) |}.

(** The [chunking] section of the configuration. *)
Record config := Config { chunk_size : Z; chunk_overlap : Z }.

(** The configuration [_load_config] falls back to. *)
Definition default_config : config :=
  {| chunk_size := 500; chunk_overlap := 50 |}.

(** [{"success": ..., "chunks": ..., "message": ...}] *)
Record index_result := IndexResult {
  success : bool;
  chunks : Z;
  message : pystr
}.

(** [{"success": ..., "deleted": ..., "message": ...}] *)
Record delete_result := DeleteResult {
  d_success : bool;
  deleted : Z;
  d_message : pystr
}.

(** One row of the answer of [collection.query]. *)
Record hit := Hit {
  hit_document : pystr;
  hit_metadata : metadata;
  hit_distance : pyfloat
}.

(** [{"text": ..., "metadata": ..., "similarity": ...}] *)
Record query_result := QueryResult {
  q_text : pystr;
  q_metadata : metadata;
  q_similarity : pyfloat
}.

(** The collaborators of the engine: [pathlib], the document loaders, the
    embedding model and the ChromaDB collection holding the state [Store].
    A call that raises leaves the store as it was. *)
Class Collaborators (Store Embedding : Type) := {
  (** [Path(p).name] *)
  path_name : pystr -> pystr;
  (** the format loader selected by [load_document], up to [_build_chunk] *)
  read_parts : pystr -> outcome (list part);
  (** [_get_embedding_model().encode(texts).tolist()] *)
  encode : list pystr -> outcome (list Embedding);
  (** [_get_collection()] *)
  coll_open : Store -> outcome unit;
  (** [_get_collection().get(include=["metadatas"])]: ids and metadatas *)
  coll_get : Store -> outcome (list (pystr * metadata));
  (** [collection.delete(ids=...)] *)
  coll_delete : list pystr -> Store -> outcome Store;
  (** [collection.add(ids, embeddings, documents, metadatas)] *)
  coll_add : list pystr -> list Embedding -> list pystr -> list metadata ->
             Store -> outcome Store;
  (** [collection.count()] *)
  coll_count : Store -> outcome Z;
  (** [collection.query(query_embeddings, n_results, include)] *)
  coll_query : list Embedding -> Z -> Store -> outcome (list hit)
}.

(** ** The engine *)

(** The test of [delete_document] on one stored metadata: its [source] is
    the path or its [filename] is the name of the path. *)
Definition matches (file_path name : pystr) (m : metadata) : bool :=
  bool_decide (m !! lit "source" = Some (PStr file_path))
  || bool_decide (m !! lit "filename" = Some (PStr name)).

Section Engine.
Context {Store Embedding : Type} {C : Collaborators Store Embedding}.

(** A computation over the collection: an outcome and the store it leaves. *)
Definition M (A : Type) : Type := Store -> outcome A * Store.

Definition ret {A} (a : A) : M A := fun s => (Returns a, s).

Definition raise {A} (e : pystr) : M A := fun s => (Raises e, s).

Definition bind {A B} (m : M A) (k : A -> M B) : M B :=
  fun s =>
    match m s with
    | (Returns a, s') => k a s'
    | (Raises e, s') => (Raises e, s')
    | (Diverges, s') => (Diverges, s')
    end.

(** [try: m except Exception as e: h e] *)
Definition try_except {A} (m : M A) (h : pystr -> M A) : M A :=
  fun s =>
    match m s with
    | (Raises e, s') => h e s'
    | r => r
    end.

(** A call that does not touch the store. *)
Definition call {A} (o : outcome A) : M A := fun s => (o, s).

(** A call that reads the store. *)
Definition reading {A} (f : Store -> outcome A) : M A := fun s => (f s, s).

(** A call that updates the store, unless it raises. *)
Definition updating (f : Store -> outcome Store) : M unit :=
  fun s =>
    match f s with
    | Returns s' => (Returns tt, s')
    | Raises e => (Raises e, s)
    | Diverges => (Diverges, s)
    end.

(** A run of the splitter: out of fuel is a call that never comes back. *)
Definition of_fuel {A} (o : option A) : M A :=
  match o with
  | Some a => ret a
  | None => call Diverges
  end.

Notation "x <- m ;; k" := (bind m (fun x => k))
  (at level 100, m at next level, right associativity).
Notation "m ;;; k" := (bind m (fun _ => k))
  (at level 100, right associativity).

(** [load_document(file_path)] *)
Definition load_document (file_path : pystr) : outcome (list chunk) :=
  match read_parts file_path with
  | Returns parts =>
      Returns (List.map (_build_chunk (path_name file_path) file_path) parts)
  | Raises e => Raises e
  | Diverges => Diverges
  end.

(** [if progress_callback: progress_callback(msg)] *)
Definition notify_outcome (progress_callback : option (pystr -> outcome unit))
  (msg : pystr) : outcome unit :=
  match progress_callback with
  | Some cb => cb msg
  | None => Returns tt
  end.

Definition notify (progress_callback : option (pystr -> outcome unit))
  (msg : pystr) : M unit :=
  call (notify_outcome progress_callback msg).

(** The progress callback, when there is one, returns on this message. *)
Definition callback_returns (progress_callback : option (pystr -> outcome unit))
  (msg : pystr) : Prop :=
  notify_outcome progress_callback msg = Returns tt.

(** The loop of [delete_document] over the stored metadatas. *)
Definition ids_to_delete (file_path : pystr)
  (rows : list (pystr * metadata)) : list pystr :=
  List.map fst
    (List.filter (fun row => matches file_path (path_name file_path) (snd row))
       rows).

(** [delete_document(file_path)] *)
Definition delete_document (file_path : pystr) : M delete_result :=
  try_except
    (results <- reading coll_get ;;
     let ids := ids_to_delete file_path results in
     match ids with
     | _ :: _ =>
         updating (coll_delete ids) ;;;
         ret {| d_success := true; deleted := Z.of_nat (length ids);
                d_message := lit "已刪除 " ++ str_of_int (Z.of_nat (length ids))
                             ++ lit " 個片段" |}
     | [] =>
         ret {| d_success := true; deleted := 0;
                d_message := lit "找不到對應文件" |}
     end)
    (fun e =>
       ret {| d_success := false; deleted := 0;
              d_message := lit "刪除失敗：" ++ e |}).

(** The splitting loops of [index_document]: every raw chunk is split and
    the sub-chunks that are not blank inherit its metadata. *)
Fixpoint split_all (fuel : nat) (cfg : config) (raw_chunks : list chunk)
  : option (list chunk) :=
  match raw_chunks with
  | [] => Some []
  | raw :: rest =>
      match _split_text fuel (text raw) (chunk_size cfg) (chunk_overlap cfg) with
      | None => None
      | Some sub_chunks =>
          match split_all fuel cfg rest with
          | None => None
          | Some more =>
              Some (List.map (fun sub => {| text := sub; meta := meta raw |})
                      (List.filter (fun sub => truthy (strip sub)) sub_chunks)
                    ++ more)
          end
      end
  end.

(** [range(n)] *)
Definition range (n : nat) : list Z := List.map Z.of_nat (seq 0 n).

(** The messages handed to the progress callback. *)
Definition loading_message (file_path : pystr) : pystr :=
  lit "正在載入文件：" ++ path_name file_path.

Definition embedding_message (n : nat) : pystr :=
  lit "正在生成嵌入向量（共 " ++ str_of_int (Z.of_nat n) ++ lit " 個片段）...".

(** The end of the [try] of [index_document]: the old generation is
    deleted, the ids are computed, the new generation is added, and the
    success reported. *)
Definition replace_generation (file_path : pystr) (all_chunks : list chunk)
  (embeddings : list Embedding) : M index_result :=
  let n := length all_chunks in
  delete_document file_path ;;;
  reading coll_open ;;;
  ids <- call (map_outcome (_get_doc_id file_path) (range n)) ;;
  let metadatas := List.map meta all_chunks in
  updating (coll_add ids embeddings (List.map text all_chunks) metadatas) ;;;
  ret {| success := true; chunks := Z.of_nat n;
         message := lit "成功索引 " ++ str_of_int (Z.of_nat n)
                    ++ lit " 個片段" |}.

(** The [try] of [index_document] from the test on [all_chunks] on. *)
Definition index_chunks (file_path : pystr)
  (progress_callback : option (pystr -> outcome unit))
  (all_chunks : list chunk) : M index_result :=
  match all_chunks with
  | [] =>
      ret {| success := false; chunks := 0; message := lit "文件內容為空" |}
  | _ :: _ =>
      notify progress_callback (embedding_message (length all_chunks)) ;;;
      let texts := List.map text all_chunks in
      embeddings <- call (encode texts) ;;
      replace_generation file_path all_chunks embeddings
  end.

(** The body of the [try] of [index_document]. *)
Definition index_body (fuel : nat) (cfg : config) (file_path : pystr)
  (progress_callback : option (pystr -> outcome unit)) : M index_result :=
  notify progress_callback (loading_message file_path) ;;;
  raw_chunks <- call (load_document file_path) ;;
  all_chunks <- of_fuel (split_all fuel cfg raw_chunks) ;;
  index_chunks file_path progress_callback all_chunks.

(** What the [except] clause of [index_document] returns. *)
Definition index_failure (e : pystr) : index_result :=
  {| success := false; chunks := 0; message := lit "索引失敗：" ++ e |}.

(** [index_document(file_path, progress_callback)].  [prelude] is what
    the statements before the [try] do: the import of [load_document],
    [_load_config()] and the two reads of its [chunking] section give the
    chunking parameters, or one of them raises, and nothing catches
    that. *)
Definition index_document (fuel : nat) (prelude : outcome config)
  (file_path : pystr) (progress_callback : option (pystr -> outcome unit))
  : M index_result :=
  cfg <- call prelude ;;
  try_except (index_body fuel cfg file_path progress_callback)
    (fun e => ret (index_failure e)).

(** What [index_document] does once the embeddings are there. *)
Definition store_chunks (file_path : pystr) (all_chunks : list chunk)
  (embeddings : list Embedding) : M index_result :=
  try_except (replace_generation file_path all_chunks embeddings)
    (fun e => ret (index_failure e)).

(** The loop of [query] over the rows the store answered. *)
Fixpoint collect (score_threshold : pyfloat) (rows : list hit)
  : list query_result :=
  match rows with
  | [] => []
  | row :: rest =>
      let sim := similarity (hit_distance row) in
      if fleb score_threshold sim then
        {| q_text := hit_document row; q_metadata := hit_metadata row;
           q_similarity := round4 sim |} :: collect score_threshold rest
      else collect score_threshold rest
  end.

(** [query(query_text, top_k, score_threshold)] *)
Definition query (query_text : pystr) (top_k : Z) (score_threshold : pyfloat)
  : M (list query_result) :=
  if truthy (strip query_text) then
    try_except
      (query_embedding <- call (encode [query_text]) ;;
       total_docs <- reading coll_count ;;
       if (total_docs =? 0)%Z then ret []
       else
         let actual_top_k := Z.min top_k total_docs in
         results <- reading (coll_query query_embedding actual_top_k) ;;
         ret (collect score_threshold results))
      (fun e => raise (lit "查詢失敗：" ++ e))
  else ret [].

End Engine.

(** The ids of one generation, for the hash of its path. *)
Definition generation (hash_val : pystr) (n : nat) : list pystr :=
  List.map (make_id hash_val) (range n).

(** The metadata [_build_chunk] writes for a path: its [source] is the
    path and its [filename] the name of the path. *)
Definition built_for (file_path name : pystr) (m : metadata) : Prop :=
  m !! lit "source" = Some (PStr file_path)
  /\ m !! lit "filename" = Some (PStr name).

(** ** A reference collection *)

Module RefStore.

(** What the collection keeps under an id. *)
Record entry (Embedding : Type) := Entry {
  e_embedding : Embedding;
  e_document : pystr;
  e_metadata : metadata
}.
Arguments Entry {Embedding} _ _ _.
Arguments e_embedding {Embedding} _.
Arguments e_document {Embedding} _.
Arguments e_metadata {Embedding} _.

(** What [add] does with an id the collection already holds: ChromaDB
    skips the record, the upsert of the specification replaces the stored
    one, and older ChromaDB releases raise. *)
Inductive existing_policy := Ignore | Overwrite | Reject.

Section Reference.
Context {Embedding : Type}.

(** Modelled from the spec: the vector store (a ChromaDB collection, an
    external library) persists (id, vector, text, metadata) tuples, every
    id is unique and [count()] is the number of distinct ids; it is a
    finite map from ids to entries. *)
Abbreviation store := (gmap pystr (entry Embedding)).

(** Modelled from the spec: [get] lists all the records. *)
Definition ref_get (m : store) : outcome (list (pystr * metadata)) :=
  Returns (List.map (fun kv => (fst kv, e_metadata (snd kv))) (map_to_list m)).

(** Modelled from the spec: [delete(ids)] removes the records of these
    ids. *)
Definition ref_delete (ids : list pystr) (m : store) : outcome store :=
  Returns (fold_right (fun id acc => delete id acc) m ids).

(** The records of one batch, id by id. *)
Fixpoint batch (ids : list pystr) (embeddings : list Embedding)
  (documents : list pystr) (metadatas : list metadata)
  : list (pystr * entry Embedding) :=
  match ids, embeddings, documents, metadatas with
  | id :: ids', e :: embeddings', d :: documents', m :: metadatas' =>
      (id, Entry e d m) :: batch ids' embeddings' documents' metadatas'
  | _, _, _, _ => []
  end.

(** Modelled from the spec: [add] stores one record per id; a batch that
    is empty, whose lists differ in length or that repeats an id is
    refused. *)
Definition ref_add (policy : existing_policy) (ids : list pystr)
  (embeddings : list Embedding) (documents : list pystr)
  (metadatas : list metadata) (m : store) : outcome store :=
  if bool_decide (ids <> [] /\ length embeddings = length ids /\
                  length documents = length ids /\
                  length metadatas = length ids /\ NoDup ids)
  then
    let new : store := list_to_map (batch ids embeddings documents metadatas) in
    match policy with
    | Ignore => Returns (m ∪ new)
    | Overwrite => Returns (new ∪ m)
    | Reject =>
        if bool_decide (Forall (fun id => m !! id = None) ids)
        then Returns (m ∪ new)
        else Raises (lit "ID already exists")
    end
  else Raises (lit "invalid batch").

(** Modelled from the spec: [count()]. *)
Definition ref_count (m : store) : outcome Z := Returns (Z.of_nat (size m)).

(** The engine over the reference collection; the remaining collaborators
    are given. *)
Definition reference (policy : existing_policy)
  (name : pystr -> pystr) (parts : pystr -> outcome (list part))
  (enc : list pystr -> outcome (list Embedding))
  (nearest : list Embedding -> Z -> store -> outcome (list hit))
  : Collaborators store Embedding :=
  {| path_name := name; read_parts := parts; encode := enc;
     coll_open := fun _ => Returns tt;
     coll_get := ref_get; coll_delete := ref_delete;
     coll_add := ref_add policy; coll_count := ref_count;
     coll_query := nearest |}.

(** The records [delete_document] leaves: those that do not match. *)
Definition survivors (file_path name : pystr) (m : store) : store :=
  filter (fun kv => matches file_path name (e_metadata (snd kv)) = false) m.

(** The records of a source: those whose metadata names it. *)
Definition of_source (file_path : pystr) (m : store) : store :=
  filter (fun kv => e_metadata (snd kv) !! lit "source" = Some (PStr file_path)) m.

End Reference.
End RefStore.

(** ** Scripted collaborators *)

Module Scripted.

(** What the collaborators of one run answer. *)
Record script := Script {
  s_parts : outcome (list part);
  s_encode : list pystr -> outcome (list unit);
  s_get : outcome (list (pystr * metadata));
  s_rows : list hit
}.

(** Collaborators that answer from a script; the store is the list of the
    ids added so far, and the path is its own file name. *)
Definition scripted (sc : script) : Collaborators (list pystr) unit :=
  {| path_name := fun p => p;
     read_parts := fun _ => s_parts sc;
     encode := s_encode sc;
     coll_open := fun _ => Returns tt;
     coll_get := fun _ => s_get sc;
     coll_delete := fun ids st =>
       Returns (List.filter (fun id => negb (bool_decide (id ∈ ids))) st);
     coll_add := fun ids _ _ _ st => Returns (st ++ ids);
     coll_count := fun _ => Returns (Z.of_nat (length (s_rows sc)));
     coll_query := fun _ k _ => Returns (firstn (Z.to_nat k) (s_rows sc)) |}.

(** An encoder that always answers, one vector per text. *)
Definition encode_ok (texts : list pystr) : outcome (list unit) :=
  Returns (List.map (fun _ => tt) texts).

(** A document of one part. *)
Definition one_part (t : pystr) : outcome (list part) :=
  Returns [{| part_text := t; part_page := 0; part_extra := [] |}].


(** A document that is blank. *)
Definition blank_document : Collaborators (list pystr) unit :=
  scripted {| s_parts := one_part (lit "   "); s_encode := encode_ok;
              s_get := Returns []; s_rows := [] |}.

(** A loader that refuses the file. *)
Definition failing_loader : Collaborators (list pystr) unit :=
  scripted {| s_parts := Raises (lit "unsupported format");
              s_encode := encode_ok; s_get := Returns []; s_rows := [] |}.

(** An embedding model that cannot be loaded. *)
Definition failing_encoder : Collaborators (list pystr) unit :=
  scripted {| s_parts := one_part (lit "hello");
              s_encode := fun _ => Raises (lit "model not found");
              s_get := Returns [(lit "b00a1cca_0", ∅)]; s_rows := [] |}.

(** A collection whose [get] raises while its [add] works. *)
Definition failing_get : Collaborators (list pystr) unit :=
  scripted {| s_parts := one_part (lit "hello"); s_encode := encode_ok;
              s_get := Raises (lit "boom"); s_rows := [] |}.


End Scripted.

(** ** A small collection *)

Module Demo.
Import RefStore.

(** The engine over the reference collection, for a loader that reads one
    part with the text [t], an encoder that always answers and paths that
    are file names. *)
Definition demo (policy : existing_policy) (t : pystr)
  : Collaborators (gmap pystr (entry unit)) unit :=
  reference policy (fun p => p) (fun _ => Scripted.one_part t)
    Scripted.encode_ok (fun _ _ _ => Returns []).

(** The metadata [_build_chunk] gives the one part of the file [p]. *)
Definition meta_of (p : pystr) : metadata :=
  <[lit "source" := PStr p]>
    (<[lit "filename" := PStr p]> (<[lit "page" := PInt 0]> ∅)).

(** A collection holding two chunks of [a.md] and one of [b.md]. *)
Definition old_store : gmap pystr (entry unit) :=
  <[lit "b00a1cca_0" := Entry tt (lit "old one") (meta_of (lit "a.md"))]>
    (<[lit "b00a1cca_1" := Entry tt (lit "old two") (meta_of (lit "a.md"))]>
       (<[lit "ffffffff_0" := Entry tt (lit "other") (meta_of (lit "b.md"))]> ∅)).

(** The same once [a.md], now one chunk, is indexed again. *)
Definition new_store : gmap pystr (entry unit) :=
  <[lit "b00a1cca_0" := Entry tt (lit "hello") (meta_of (lit "a.md"))]>
    (<[lit "ffffffff_0" := Entry tt (lit "other") (meta_of (lit "b.md"))]> ∅).

End Demo.

(** ** The catalogue: [list_documents], [get_stats] *)

(** One value of the dict [doc_stats]. *)
Record doc_stat := DocStat {
  ds_filename : pyval;
  ds_source : pyval;
  ds_chunks : Z
}.

(** [doc_stats] after the body of the loop of [list_documents] for one
    metadata: a source seen for the first time is inserted at the end
    with this [filename], and its counter goes up by one.  The dict is
    the list of its values in insertion order. *)
Fixpoint count_chunk (source filename : pyval) (doc_stats : list doc_stat)
  : list doc_stat :=
  match doc_stats with
  | [] => [{| ds_filename := filename; ds_source := source; ds_chunks := 0 + 1 |}]
  | d :: rest =>
      if decide (ds_source d = source)
      then {| ds_filename := ds_filename d; ds_source := ds_source d;
              ds_chunks := ds_chunks d + 1 |} :: rest
      else d :: count_chunk source filename rest
  end.

(** [meta.get("source", "未知")] *)
Definition source_of (meta : metadata) : pyval :=
  default (PStr (lit "未知")) (meta !! lit "source").

(** The metadatas of one source. *)
Definition metadatas_of (source : pyval) (metadatas : list metadata)
  : list metadata :=
  List.filter (fun meta => bool_decide (source_of meta = source)) metadatas.

(** The sum of the counters of [doc_stats]. *)
Definition sum_chunks (doc_stats : list doc_stat) : Z :=
  fold_right (fun d acc => ds_chunks d + acc) 0 doc_stats.

(** The counter of a source in [doc_stats], 0 when it is not a key. *)
Fixpoint chunks_of (source : pyval) (doc_stats : list doc_stat) : Z :=
  match doc_stats with
  | [] => 0
  | d :: rest =>
      if decide (ds_source d = source) then ds_chunks d
      else chunks_of source rest
  end.

(** What [get_stats] returns: the statistics, or the zeroed counters
    with the [error]. *)
Inductive stats :=
| Stats (total_documents total_chunks : Z) (embedding_model : pystr)
    (chunk_size chunk_overlap : Z)
| StatsError (error : pystr).

Definition total_documents (s : stats) : Z :=
  match s with Stats n _ _ _ _ => n | StatsError _ => 0 end.

Definition total_chunks (s : stats) : Z :=
  match s with Stats _ n _ _ _ => n | StatsError _ => 0 end.

Section Catalogue.
Context {Store Embedding : Type} {C : Collaborators Store Embedding}.

Notation "x <- m ;; k" := (bind m (fun x => k))
  (at level 100, m at next level, right associativity).

(** The loop of [list_documents].  [Path(source)] is evaluated for every
    metadata, also when it has a [filename], and raises a [TypeError] on
    a source that is not a string. *)
Fixpoint group_by_source (metadatas : list metadata) (doc_stats : list doc_stat)
  : outcome (list doc_stat) :=
  match metadatas with
  | [] => Returns doc_stats
  | meta :: rest =>
      match source_of meta with
      | PStr s =>
          let filename := default (PStr (path_name s)) (meta !! lit "filename") in
          group_by_source rest (count_chunk (PStr s) filename doc_stats)
      | PInt _ =>
          Raises (lit "expected str, bytes or os.PathLike object, not int")
      end
  end.

(** [list_documents()] *)
Definition list_documents : M (list doc_stat) :=
  try_except
    (total <- reading coll_count ;;
     if (total =? 0)%Z then ret []
     else
       results <- reading coll_get ;;
       call (group_by_source (List.map snd results) []))
    (fun _ => ret []).

(** [get_stats()].  [config_read] is what [_load_config()] and the three
    reads of the configuration do, inside the [try]: they give the name
    of the embedding model and the chunking parameters, or one of them
    raises. *)
Definition get_stats (config_read : outcome (pystr * config)) : M stats :=
  try_except
    (total_chunks <- reading coll_count ;;
     docs <- list_documents ;;
     cfg <- call config_read ;;
     ret (Stats (Z.of_nat (length docs)) total_chunks (fst cfg)
            (chunk_size (snd cfg)) (chunk_overlap (snd cfg))))
    (fun e => ret (StatsError e)).

End Catalogue.

(** ** The document loaders *)

Module Loader.

(** [sep.join(l)] *)
Fixpoint join (sep : pystr) (l : list pystr) : pystr :=
  match l with
  | [] => []
  | [s] => s
  | s :: rest => s ++ sep ++ join sep rest
  end.

(** [s.split("\n")] *)
Fixpoint split_newline (s : pystr) : list pystr :=
  match s with
  | [] => [[]]
  | c :: s' =>
      if (c =? 10)%N then [] :: split_newline s'
      else
        match split_newline s' with
        | line :: lines => (c :: line) :: lines
        | [] => [[c]]
        end
  end.

(** [line.lstrip("#")] *)
Fixpoint lstrip_hash (s : pystr) : pystr :=
  match s with
  | [] => []
  | c :: s' => if (c =? 35)%N then lstrip_hash s' else s
  end.

(** The variables of the loop of [_load_markdown]. *)
Record md_state := MdState {
  md_chunks : list part;
  current_section : list pystr;
  current_title : pystr
}.

(** [if current_section: text = ...; if text: chunks.append(...)] *)
Definition flush (st : md_state) : list part :=
  match current_section st with
  | [] => md_chunks st
  | _ :: _ =>
      let text := strip (join [10%N] (current_section st)) in
      if truthy text
      then md_chunks st
           ++ [{| part_text := text; part_page := 0;
                  part_extra := [(KSection, current_title st)] |}]
      else md_chunks st
  end.

(** The body of the loop of [_load_markdown] for one line. *)
Definition md_line (st : md_state) (line : pystr) : md_state :=
  if startswith (lit "#") line then
    {| md_chunks := flush st; current_section := [line];
       current_title := strip (lstrip_hash line) |}
  else
    {| md_chunks := md_chunks st;
       current_section := current_section st ++ [line];
       current_title := current_title st |}.

(** [_load_markdown] on the content read from the file: what it hands to
    [_build_chunk], chunk by chunk. *)
Definition _load_markdown (content : pystr) : list part :=
  let st := fold_left md_line (split_newline content)
              {| md_chunks := []; current_section := [];
                 current_title := lit "開頭" |} in
  match flush st with
  | [] => [{| part_text := content; part_page := 0; part_extra := [] |}]
  | chunks => chunks
  end.

(** [_load_text] on the content read from the file. *)
Definition _load_text (content : pystr) : list part :=
  [{| part_text := content; part_page := 0; part_extra := [] |}].

(** The functions [load_document] dispatches to. *)
Inductive loader :=
| load_markdown | load_text | load_pdf | load_docx | load_csv | load_excel.

(** The dict [loaders] of [load_document], in its order. *)
Definition loaders : list (pystr * loader) :=
  [(lit ".md", load_markdown); (lit ".txt", load_text); (lit ".pdf", load_pdf);
   (lit ".docx", load_docx); (lit ".csv", load_csv); (lit ".xlsx", load_excel);
   (lit ".xls", load_excel)].

(** [get_supported_extensions()] *)
Definition get_supported_extensions : list pystr :=
  [lit ".md"; lit ".txt"; lit ".pdf"; lit ".docx"; lit ".csv"; lit ".xlsx";
   lit ".xls"].

(** [loaders.get(ext)] *)
Fixpoint find_loader (ext : pystr) (table : list (pystr * loader))
  : option loader :=
  match table with
  | [] => None
  | (key, f) :: rest =>
      if decide (key = ext) then Some f else find_loader ext rest
  end.

(** The message of the [ValueError] of [load_document]. *)
Definition unsupported_message (ext : pystr) : pystr :=
  lit "不支援的文件格式：" ++ ext ++ lit "，支援格式："
  ++ join (lit ", ") (List.map fst loaders).

(** [load_document] up to [_build_chunk]: [ext] is
    [Path(file_path).suffix.lower()], [read_text] reads the file as
    UTF-8 text and [external] stands for the loaders built on pypdf,
    python-docx and pandas. *)
Definition load_parts (ext : pystr) (read_text : pystr -> outcome pystr)
  (external : loader -> pystr -> outcome (list part)) (file_path : pystr)
  : outcome (list part) :=
  match find_loader ext loaders with
  | None => Raises (unsupported_message ext)
  | Some load_markdown =>
      match read_text file_path with
      | Returns content => Returns (_load_markdown content)
      | Raises e => Raises e
      | Diverges => Diverges
      end
  | Some load_text =>
      match read_text file_path with
      | Returns content => Returns (_load_text content)
      | Raises e => Raises e
      | Diverges => Diverges
      end
  | Some f => external f file_path
  end.

(** What a chunk of a section looks like: page 0, a title that is stripped
    and a text that is stripped and not empty. *)
Definition section_part (p : part) : Prop :=
  part_page p = 0
  /\ part_text p <> []
  /\ strip (part_text p) = part_text p
  /\ exists title, part_extra p = [(KSection, title)] /\ strip title = title.

(** What the loop of [_load_markdown] keeps: the chunks so far are chunks
    of sections and the current title is stripped. *)
Definition md_invariant (st : md_state) : Prop :=
  Forall section_part (md_chunks st) /\ strip (current_title st) = current_title st.

End Loader.

(** ** The lazy globals and [reset_knowledge_base] *)

Module Process.
Import RefStore.

Section Globals.
Context {Embedding : Type}.

(** Modelled from the spec: the ChromaDB client library (external).  The
    persisted database holds the collection of the configured name, or
    not; [get_or_create_collection] creates it empty when it is absent,
    [delete_collection] drops it. *)
Class Chroma := {
  (** [import chromadb], [_load_config()] and the reads of the
      [knowledge_base] section of the configuration *)
  import_chromadb : outcome unit;
  (** [os.makedirs(persist_dir)] and [chromadb.PersistentClient(path)] *)
  new_client : outcome unit;
  (** [client.get_or_create_collection(name)]: the database afterwards *)
  get_or_create_collection :
    option (gmap pystr (entry Embedding)) ->
    outcome (option (gmap pystr (entry Embedding)));
  (** [client.delete_collection(name)]: the database afterwards *)
  delete_collection :
    option (gmap pystr (entry Embedding)) ->
    outcome (option (gmap pystr (entry Embedding)))
}.

(** Modelled from the spec: a client that never fails, except that
    dropping a collection that does not exist raises. *)
Definition reference_client : Chroma :=
  {| import_chromadb := Returns tt;
     new_client := Returns tt;
     get_or_create_collection := fun db =>
       Returns (Some (default ∅ db));
     delete_collection := fun db =>
       match db with
       | Some _ => Returns None
       | None => Raises (lit "Collection does not exist")
       end |}.

(** The globals [_chroma_client] and [_collection] (set or [None]) and
    the persisted database. *)
Record process := Process {
  _chroma_client : bool;
  _collection : bool;
  database : option (gmap pystr (entry Embedding))
}.

Context {client : Chroma}.

(** [_get_collection()] *)
Definition _get_collection (p : process) : outcome unit * process :=
  if _collection p then (Returns tt, p)
  else
    match import_chromadb with
    | Returns _ =>
        match new_client with
        | Returns _ =>
            let p1 := {| _chroma_client := true; _collection := _collection p;
                         database := database p |} in
            match get_or_create_collection (database p) with
            | Returns db =>
                (Returns tt,
                 {| _chroma_client := true; _collection := true;
                    database := db |})
            | Raises e => (Raises e, p1)
            | Diverges => (Diverges, p1)
            end
        | Raises e => (Raises e, p)
        | Diverges => (Diverges, p)
        end
    | Raises e => (Raises e, p)
    | Diverges => (Diverges, p)
    end.

(** [{"success": ..., "message": ...}] *)
Record reset_result := ResetResult { r_success : bool; r_message : pystr }.

(** The database after the inner [try] of [reset_knowledge_base]: the
    collection is dropped only through a client that is set, and an
    exception of the drop is passed over. *)
Definition drop_collection (p : process)
  : outcome (option (gmap pystr (entry Embedding))) :=
  if _chroma_client p then
    match delete_collection (database p) with
    | Returns db => Returns db
    | Raises _ => Returns (database p)
    | Diverges => Diverges
    end
  else Returns (database p).

(** [reset_knowledge_base()] *)
Definition reset_knowledge_base (p : process) : outcome reset_result * process :=
  match import_chromadb with
  | Returns _ =>
      match drop_collection p with
      | Returns db =>
          match _get_collection {| _chroma_client := false; _collection := false;
                                   database := db |} with
          | (Returns _, p') =>
              (Returns {| r_success := true; r_message := lit "知識庫已重置" |}, p')
          | (Raises e, p') =>
              (Returns {| r_success := false;
                          r_message := lit "重置失敗：" ++ e |}, p')
          | (Diverges, p') => (Diverges, p')
          end
      | Raises e =>
          (Returns {| r_success := false; r_message := lit "重置失敗：" ++ e |}, p)
      | Diverges => (Diverges, p)
      end
  | Raises e =>
      (Returns {| r_success := false; r_message := lit "重置失敗：" ++ e |}, p)
  | Diverges => (Diverges, p)
  end.

End Globals.
End Process.

(** ** The handlers of the web interface *)

Section App.
Context {Store Embedding : Type} {C : Collaborators Store Embedding}.

Notation "x <- m ;; k" := (bind m (fun x => k))
  (at level 100, m at next level, right associativity).

(** [str(v)] for a metadata value. *)
Definition str_of_pyval (v : pyval) : pystr :=
  match v with
  | PStr s => s
  | PInt n => str_of_int n
  end.

(** The rows of the table of [_get_docs_table], numbered from [i]. *)
Fixpoint docs_rows (i : Z) (docs : list doc_stat) : list pystr :=
  match docs with
  | [] => []
  | doc :: rest =>
      (lit "| " ++ str_of_int i ++ lit " | " ++ str_of_pyval (ds_filename doc)
       ++ lit " | " ++ str_of_int (ds_chunks doc) ++ lit " |")
      :: docs_rows (i + 1) rest
  end.

(** [_get_docs_table()] *)
Definition _get_docs_table : M pystr :=
  docs <- list_documents ;;
  match docs with
  | [] => ret (lit "（尚未索引任何文件）")
  | _ :: _ =>
      ret (Loader.join [10%N]
             ([lit "| # | 文件名稱 | 片段數 |"; lit "|---|---------|--------|"]
              ++ docs_rows 1 docs))
  end.

(** The loop of [handle_delete]: the source of the first document with
    this file name. *)
Fixpoint find_target (filename : pystr) (docs : list doc_stat) : option pyval :=
  match docs with
  | [] => None
  | doc :: rest =>
      if decide (ds_filename doc = PStr filename) then Some (ds_source doc)
      else find_target filename rest
  end.

(** [handle_delete(filename)]; a source that is not a string cannot be
    listed, so the target is one. *)
Definition handle_delete (filename : pystr) : M (pystr * pystr) :=
  if truthy (strip filename) then
    docs <- list_documents ;;
    match find_target (strip filename) docs with
    | Some (PStr target) =>
        result <- delete_document target ;;
        let msg :=
          if d_success result then
            lit "✅ 已刪除 **" ++ filename ++ lit "**（共 "
            ++ str_of_int (deleted result) ++ lit " 個片段）"
          else lit "❌ " ++ d_message result in
        table <- _get_docs_table ;;
        ret (msg, table)
    | _ =>
        table <- _get_docs_table ;;
        ret (lit "❌ 找不到文件：" ++ filename, table)
    end
  else
    table <- _get_docs_table ;;
    ret (lit "⚠️ 請輸入要刪除的文件名稱。", table).

(** [handle_query(query_text, top_k, score_threshold)]; [format] is
    [_format_results_markdown]. *)
Definition handle_query (format : list query_result -> outcome pystr)
  (query_text : pystr) (top_k : Z) (score_threshold : pyfloat) : M pystr :=
  if truthy (strip query_text) then
    try_except
      (results <- query query_text top_k score_threshold ;;
       call (format results))
      (fun e => ret (lit "❌ 查詢失敗：" ++ e))
  else ret (lit "⚠️ 請輸入查詢內容。").

End App.

(** * Properties *)

(** ** Strings *)

Section StringFacts.

Lemma len_nonneg (s : pystr) : 0 <= len s.
Proof. unfold len. lia. Qed.

Lemma len_slice (s : pystr) (lo hi : Z) :
  len (slice s lo hi)
  = Z.max 0 (Z.min (clamp_index (len s) hi - clamp_index (len s) lo)
                   (len s - clamp_index (len s) lo)).
Proof.
  unfold slice, len. rewrite length_take, length_drop.
  unfold clamp_index.
  destruct (Z.ltb_spec lo 0), (Z.ltb_spec hi 0); lia.
Qed.

Lemma clamp_index_range (n i : Z) : 0 <= n -> 0 <= clamp_index n i <= n.
Proof. unfold clamp_index. destruct (Z.ltb_spec i 0); lia. Qed.

Lemma len_slice_to_le (s : pystr) (hi : Z) : len (slice_to s hi) <= len s.
Proof.
  unfold slice_to. rewrite len_slice.
  pose proof (len_nonneg s) as Hs.
  pose proof (clamp_index_range (len s) 0 Hs).
  pose proof (clamp_index_range (len s) hi Hs). lia.
Qed.

Lemma lstrip_starts_clean (s : pystr) : starts_clean (lstrip s).
Proof.
  induction s as [|c s IH]; simpl; [exact I|].
  destruct (isspace c) eqn:Hc; [exact IH|]. simpl. exact Hc.
Qed.

Lemma lstrip_clean_id (s : pystr) : starts_clean s -> lstrip s = s.
Proof. destruct s as [|c s]; simpl; [reflexivity|]. intros ->. reflexivity. Qed.

(** What [lstrip] removes is white space only. *)
Lemma lstrip_split (s : pystr) :
  exists ws, s = ws ++ lstrip s /\ forallb isspace ws = true.
Proof.
  induction s as [|c s (ws & Hs & Hws)]; simpl.
  - exists []. split; reflexivity.
  - destruct (isspace c) eqn:Hc.
    + exists (c :: ws). simpl. rewrite Hc, Hws. split; [congruence|reflexivity].
    + exists []. split; reflexivity.
Qed.

Lemma rstrip_starts_clean (s : pystr) : starts_clean s -> starts_clean (rstrip s).
Proof.
  unfold rstrip. intros Hs.
  destruct (lstrip_split (rev s)) as (ws & Hrev & Hws).
  assert (Hsplit : s = rev (lstrip (rev s)) ++ rev ws).
  { rewrite <- rev_app_distr, <- Hrev, rev_involutive. reflexivity. }
  destruct (rev (lstrip (rev s))) as [|c t] eqn:Hr; [exact I|].
  rewrite Hsplit in Hs. simpl in Hs. simpl. exact Hs.
Qed.

Lemma strip_starts_clean (s : pystr) : starts_clean (strip s).
Proof. unfold strip. apply rstrip_starts_clean, lstrip_starts_clean. Qed.

Lemma strip_ends_clean (s : pystr) : starts_clean (rev (strip s)).
Proof.
  unfold strip, rstrip. rewrite rev_involutive. apply lstrip_starts_clean.
Qed.

(** Stripping twice is stripping once. *)
Lemma strip_idem (s : pystr) : strip (strip s) = strip s.
Proof.
  pose proof (strip_starts_clean s) as Hl.
  pose proof (strip_ends_clean s) as Hr.
  unfold strip at 1. rewrite (lstrip_clean_id _ Hl).
  unfold rstrip. rewrite (lstrip_clean_id _ Hr). apply rev_involutive.
Qed.

Lemma truthy_nonempty (s : pystr) : truthy s = true <-> s <> [].
Proof. destruct s; simpl; split; congruence. Qed.

End StringFacts.

(** ** The chunker *)

Section ChunkerFacts.
Variables (text : pystr) (cs co : Z).

Lemma len_snap_le (seps : list pystr) (chunk : pystr) :
  len (snap_to_boundary seps chunk cs) <= len chunk.
Proof.
  induction seps as [|sep seps IH]; simpl; [lia|].
  destruct (cs / 2 <? rfind chunk sep); [apply len_slice_to_le | exact IH].
Qed.

(** A window never reaches beyond the end of the text. *)
Lemma window_within (start : Z) :
  start < len text -> start + len (window text cs start) <= len text.
Proof.
  intros Hstart. unfold window.
  pose proof (len_nonneg text) as Htext.
  assert (Hslice : start + len (slice text start (start + cs)) <= len text).
  { rewrite len_slice.
    pose proof (clamp_index_range (len text) (start + cs) Htext).
    unfold clamp_index in *.
    destruct (Z.ltb_spec start 0), (Z.ltb_spec (start + cs) 0); lia. }
  destruct (start + cs <? len text); [|exact Hslice].
  pose proof (len_snap_le separators (slice text start (start + cs))). lia.
Qed.

(** With a positive overlap [start] stays below the length of the text:
    the test of the [while] never fails. *)
Lemma split_step_stuck (s : split_state) :
  0 < co -> st_start s < len text ->
  st_start (split_step text cs co s) < len text.
Proof.
  intros Hco Hs. simpl. pose proof (window_within _ Hs). lia.
Qed.

Lemma split_loop_diverges (fuel : nat) (s : split_state) :
  0 < co -> st_start s < len text -> split_loop fuel text cs co s = None.
Proof.
  intros Hco. revert s.
  induction fuel as [|fuel IH]; intros s Hs; simpl;
    destruct (Z.ltb_spec (st_start s) (len text)); try lia; [reflexivity|].
  apply IH, split_step_stuck; assumption.
Qed.

(** What the loop returns extends the chunks appended so far by stripped
    windows. *)
Lemma split_loop_stripped (fuel : nat) (s : split_state) (r : list pystr) :
  Forall (fun c => strip c = c) (st_chunks s) ->
  split_loop fuel text cs co s = Some r ->
  Forall (fun c => strip c = c) r.
Proof.
  revert s. induction fuel as [|fuel IH]; intros s Hs; simpl;
    destruct (st_start s <? len text); intros Hr.
  - discriminate.
  - injection Hr as <-. exact Hs.
  - revert Hr. apply IH. simpl. apply Forall_app. split; [exact Hs|].
    constructor; [apply strip_idem | constructor].
  - injection Hr as <-. exact Hs.
Qed.

(** From a position inside the text, a window of a positive size holds at
    least one character. *)
Lemma window_nonempty (start : Z) :
  0 < cs -> 0 <= start < len text -> 1 <= len (window text cs start).
Proof.
  intros Hcs Hstart. unfold window.
  set (chunk := slice text start (start + cs)).
  assert (Hchunk : len chunk = Z.min cs (len text - start)).
  { unfold chunk. rewrite len_slice. unfold clamp_index.
    destruct (Z.ltb_spec start 0), (Z.ltb_spec (start + cs) 0); lia. }
  destruct (Z.ltb_spec (start + cs) (len text)); [|lia].
  assert (Hsnap : forall seps, 1 <= len (snap_to_boundary seps chunk cs)).
  { induction seps as [|sep seps IH]; simpl; [lia|].
    destruct (Z.ltb_spec (cs / 2) (rfind chunk sep)) as [Hsep|]; [|exact IH].
    assert (0 <= cs / 2) by (apply Z.div_pos; lia).
    unfold slice_to. rewrite len_slice. unfold clamp_index. simpl.
    destruct (Z.ltb_spec (rfind chunk sep + 1) 0); lia. }
  apply Hsnap.
Qed.

(** Without overlap every iteration moves [start] forward, and the loop
    exits within [len text] iterations. *)
Lemma split_loop_returns (fuel : nat) (s : split_state) :
  0 < cs -> co <= 0 -> 0 <= st_start s ->
  len text - st_start s <= Z.of_nat fuel ->
  exists r, split_loop fuel text cs co s = Some r.
Proof.
  intros Hcs Hco. revert s.
  induction fuel as [|fuel IH]; intros s Hs Hfuel; simpl;
    destruct (Z.ltb_spec (st_start s) (len text)); try lia; eauto.
  pose proof (window_nonempty (st_start s) Hcs ltac:(lia)).
  apply IH; simpl; lia.
Qed.

(** On a non-empty text longer than [chunk_size], a positive overlap
    keeps the loop from ever exiting. *)
Lemma split_text_stuck (fuel : nat) :
  0 < len text -> cs < len text -> 0 < co -> _split_text fuel text cs co = None.
Proof.
  intros Htext Hlen Hco. unfold _split_text.
  destruct (Z.leb_spec (len text) cs); [lia|].
  rewrite split_loop_diverges; [reflexivity | exact Hco | exact Htext].
Qed.

End ChunkerFacts.

(** Slices and searches as Python evaluates them. *)
Example slice_negative_start : slice (lit "abc") (-2) 8 = lit "bc".
Proof. reflexivity. Qed.

Example slice_crossed : slice (lit "abcdefghijkl") (-2) 8 = lit "".
Proof. reflexivity. Qed.

Example rfind_last : rfind (lit "ab.cd.") (lit ".") = 5.
Proof. reflexivity. Qed.

Example rfind_absent : rfind (lit "ab") (lit "x") = -1.
Proof. reflexivity. Qed.

Example strip_both : strip [32; 9; 97; 32; 98; 10; 12288]%N = lit "a b".
Proof. reflexivity. Qed.

(** C7: a text that is not longer than [chunk_size] comes back as the
    one-element list holding the text itself, unchanged. *)
Theorem split_text_short (fuel : nat) (text : pystr) (cs co : Z) :
  len text <= cs -> _split_text fuel text cs co = Some [text].
Proof.
  intros H. unfold _split_text.
  destruct (Z.leb_spec (len text) cs); [reflexivity | lia].
Qed.

Lemma split_text_short_witness :
  len (lit " ab ") <= 10 /\ _split_text 0 (lit " ab ") 10 3 = Some [lit " ab "].
Proof.
  split; [vm_compute; discriminate | apply split_text_short; vm_compute; discriminate].
Defined.

(** C1 (the code does not meet it): with a positive overlap, the loop of
    [_split_text] never exits on a text longer than [chunk_size]; whatever
    the fuel, no result comes back.  The last window ends at the end of
    the text, so [start] moves to [len text - chunk_overlap] and from
    there the advance is 0. *)
Theorem split_text_overlap_diverges (fuel : nat) (text : pystr) (cs co : Z) :
  0 < cs -> cs < len text -> 0 < co -> _split_text fuel text cs co = None.
Proof.
  intros Hcs Hlen Hco. apply split_text_stuck; [lia | exact Hlen | exact Hco].
Qed.

Lemma split_text_overlap_diverges_witness :
  0 < 2 /\ 2 < len (lit "abc") /\ 0 < 1 /\
  _split_text 1000 (lit "abc") 2 1 = None.
Proof.
  split; [lia|]. split; [vm_compute; reflexivity|]. split; [lia|].
  apply split_text_overlap_diverges; [lia | vm_compute; reflexivity | lia].
Defined.

(** The failing run of C1 step by step: from [start = 2] the window is
    the last character, the advance is [1 - 1 = 0], and the state the
    loop reaches differs only by one more copy of the chunk. *)
Example split_step_no_advance :
  split_step (lit "abc") 2 1 {| st_start := 2; st_chunks := [lit "ab"; lit "bc"] |}
  = {| st_start := 2; st_chunks := [lit "ab"; lit "bc"; lit "c"] |}.
Proof. vm_compute. reflexivity. Qed.

(** A window shortened at a boundary can even move [start] backwards:
    the window [abcdef. hi] is cut after the full stop, 7 characters, and
    the overlap is 9. *)
Example split_step_backwards :
  st_start (split_step (lit "abcdef. hijklmnop") 10 9
              {| st_start := 0; st_chunks := [] |}) = -2.
Proof. vm_compute. reflexivity. Qed.

(** The same with the default configuration: any text of 501 characters. *)
Example split_text_default_config_diverges (fuel : nat) :
  _split_text fuel (repeat 97%N 501) (chunk_size default_config)
    (chunk_overlap default_config) = None.
Proof.
  apply split_text_stuck; vm_compute; reflexivity.
Qed.

(** Without overlap the loop exits. *)
Example split_no_overlap :
  _split_text 10 (lit "ab. cd. ef") 4 0 = Some [lit "ab."; lit "cd."; lit "ef"].
Proof. vm_compute. reflexivity. Qed.

(** A boundary beyond the middle of the window shortens it. *)
Example split_snaps :
  _split_text 10 (lit "abcd. efgh") 6 0 = Some [lit "abcd."; lit "efgh"].
Proof. vm_compute. reflexivity. Qed.

(** C8, as stated, fails: on the short-circuit path the text comes back
    as it is, white space included, and an empty text is not dropped. *)
Lemma split_text_short_not_stripped :
  _split_text 0 (lit " ab ") 10 3 = Some [lit " ab "]
  /\ ~ starts_clean (lit " ab ")
  /\ _split_text 0 (lit "") 10 3 = Some [lit ""]
  /\ ~ (forall fuel text cs co r,
          _split_text fuel text cs co = Some r -> Forall stripped_nonempty r).
Proof.
  split; [reflexivity|]. split; [vm_compute; discriminate|].
  split; [reflexivity|].
  intros H. specialize (H 0%nat (lit "") 10 3 [lit ""] eq_refl).
  inversion H as [|? ? [Hne _] _]. apply Hne. reflexivity.
Qed.

(** C8, amended: for a text longer than [chunk_size], every string
    [_split_text] returns is non-empty and neither starts nor ends with
    white space; and it does return when [chunk_size] is positive and
    there is no overlap. *)
Theorem split_text_long_clean (text : pystr) (cs co : Z) :
  cs < len text ->
  (forall fuel r,
     _split_text fuel text cs co = Some r -> Forall stripped_nonempty r)
  /\ (0 < cs -> co <= 0 ->
      exists r, _split_text (Z.to_nat (len text)) text cs co = Some r).
Proof.
  intros Hlen. unfold _split_text.
  destruct (Z.leb_spec (len text) cs); [lia|]. split.
  - intros fuel r.
    destruct (split_loop fuel text cs co _) as [chunks|] eqn:Hloop; [|discriminate].
    intros [= <-].
    apply split_loop_stripped in Hloop; [|constructor].
    rewrite List.Forall_forall in *. intros c Hc.
    apply filter_In in Hc as [Hin Htrue].
    specialize (Hloop c Hin). rewrite Hloop in Htrue.
    split; [apply truthy_nonempty; exact Htrue|].
    rewrite <- Hloop. split; [apply strip_starts_clean | apply strip_ends_clean].
  - intros Hcs Hco.
    destruct (split_loop_returns text cs co (Z.to_nat (len text))
                {| st_start := 0; st_chunks := [] |}) as [r Hr];
      [lia | lia | simpl; lia | simpl; lia |].
    rewrite Hr. eauto.
Qed.

Lemma split_text_long_clean_witness :
  4 < len (lit "ab. cd. ef")
  /\ _split_text 10 (lit "ab. cd. ef") 4 0 = Some [lit "ab."; lit "cd."; lit "ef"]
  /\ Forall stripped_nonempty [lit "ab."; lit "cd."; lit "ef"].
Proof.
  split; [vm_compute; reflexivity|]. split; [vm_compute; reflexivity|].
  apply (proj1 (split_text_long_clean (lit "ab. cd. ef") 4 0 ltac:(vm_compute; reflexivity)) 10%nat).
  vm_compute. reflexivity.
Defined.

(** ** Floats *)

Section RoundingFacts.
Local Open Scope Q_scope.

Lemma round_half_even_cases (q : Q) :
  let f := Qfloor q in
  (round_half_even q = f /\ q - inject_Z f <= 1 # 2)
  \/ (round_half_even q = (f + 1)%Z /\ 1 # 2 <= q - inject_Z f).
Proof.
  intros f. unfold round_half_even. fold f.
  destruct (Qcompare_spec (q - inject_Z f) (1 # 2)) as [He|Hl|Hg].
  - destruct (Z.even f); [left | right]; split; try reflexivity; lra.
  - left. split; [reflexivity | lra].
  - right. split; [reflexivity | lra].
Qed.

Lemma round_half_even_tie (q : Q) :
  q - inject_Z (Qfloor q) == 1 # 2 ->
  round_half_even q = if Z.even (Qfloor q) then Qfloor q else (Qfloor q + 1)%Z.
Proof.
  intros H. unfold round_half_even.
  apply Qeq_alt in H. rewrite H. reflexivity.
Qed.

Lemma round_half_even_monotone (q1 q2 : Q) :
  q1 <= q2 -> (round_half_even q1 <= round_half_even q2)%Z.
Proof.
  intros Hq.
  pose proof (Qfloor_resp_le _ _ Hq) as Hf.
  destruct (round_half_even_cases q1) as [[E1 F1]|[E1 F1]];
    destruct (round_half_even_cases q2) as [[E2 F2]|[E2 F2]];
    simpl in *; rewrite ?E1, ?E2; try lia.
  destruct (Z.eq_dec (Qfloor q1) (Qfloor q2)) as [Heq|Hne]; [|lia].
  exfalso.
  assert (HQ : inject_Z (Qfloor q1) == inject_Z (Qfloor q2))
    by (rewrite Heq; reflexivity).
  assert (Htie1 : q1 - inject_Z (Qfloor q1) == 1 # 2) by lra.
  assert (Htie2 : q2 - inject_Z (Qfloor q2) == 1 # 2) by lra.
  rewrite (round_half_even_tie q1 Htie1) in E1.
  rewrite (round_half_even_tie q2 Htie2) in E2.
  rewrite <- Heq in E2.
  destruct (Z.even (Qfloor q1)); lia.
Qed.

Lemma round_half_even_inject (n : Z) : round_half_even (inject_Z n) = n.
Proof.
  destruct (round_half_even_cases (inject_Z n)) as [[E _]|[_ F]];
    rewrite Qfloor_Z in *; [exact E | lra].
Qed.

Lemma round_half_even_comp (q1 q2 : Q) :
  q1 == q2 -> round_half_even q1 = round_half_even q2.
Proof.
  intros H. unfold round_half_even. rewrite (Qfloor_comp _ _ H).
  assert (Hc : q1 - inject_Z (Qfloor q2) == q2 - inject_Z (Qfloor q2)) by lra.
  rewrite (Qcompare_comp _ _ Hc _ _ (Qeq_refl (1 # 2))). reflexivity.
Qed.

(** Powers of two. *)
Lemma pow2_pos (e : Z) : 0 < pow2 e.
Proof. apply Qpower_0_lt. reflexivity. Qed.

Lemma pow2_add (a b : Z) : pow2 (a + b) == pow2 a * pow2 b.
Proof. apply Qpower_plus. discriminate. Qed.

Lemma pow2_le (a b : Z) : (a <= b)%Z -> pow2 a <= pow2 b.
Proof. intros H. apply Qpower_le_compat_l; [exact H | discriminate]. Qed.

Lemma pow2_lt_inv (a b : Z) : pow2 a < pow2 b -> (a < b)%Z.
Proof. intros H. apply (Qpower_lt_compat_l_inv 2); [exact H | reflexivity]. Qed.

Lemma pow2_inject (a : Z) : (0 <= a)%Z -> pow2 a == inject_Z (2 ^ a).
Proof. intros H. symmetry. apply (Zpower_Qpower 2 a H). Qed.

Lemma inject_Z_pos (n : Z) : (0 < n)%Z -> 0 < inject_Z n.
Proof. intros H. unfold Qlt. simpl. lia. Qed.

Lemma Qdiv_lt_cross (a b c d : Q) :
  0 < b -> 0 < d -> a * d < c * b -> a / b < c / d.
Proof.
  intros Hb Hd H.
  assert (Hb' : 0 < / b) by (apply Qinv_lt_0_compat; exact Hb).
  assert (Hd' : 0 < / d) by (apply Qinv_lt_0_compat; exact Hd).
  setoid_replace (a / b) with (a * d * (/ b * / d)) using relation Qeq by (field; lra).
  setoid_replace (c / d) with (c * b * (/ b * / d)) using relation Qeq by (field; lra).
  apply Qmult_lt_compat_r; [apply Qmult_lt_0_compat; assumption | exact H].
Qed.

Lemma Qdiv_le_cross (a b c d : Q) :
  0 < b -> 0 < d -> a * d <= c * b -> a / b <= c / d.
Proof.
  intros Hb Hd H.
  assert (Hb' : 0 < / b) by (apply Qinv_lt_0_compat; exact Hb).
  assert (Hd' : 0 < / d) by (apply Qinv_lt_0_compat; exact Hd).
  setoid_replace (a / b) with (a * d * (/ b * / d)) using relation Qeq by (field; lra).
  setoid_replace (c / d) with (c * b * (/ b * / d)) using relation Qeq by (field; lra).
  apply Qmult_le_compat_r; [exact H|]. apply Qlt_le_weak, Qmult_lt_0_compat; assumption.
Qed.

(** [Qlog2] is the integer part of the logarithm. *)
Lemma Qlog2_spec (q : Q) : 0 < q -> pow2 (Qlog2 q) <= q < pow2 (Qlog2 q + 1).
Proof.
  intros Hq. destruct q as [n d]. unfold Qlog2. cbn [Qnum Qden].
  assert (Hn : (0 < n)%Z) by (unfold Qlt in Hq; simpl in Hq; lia).
  set (a := Z.log2 n). set (b := Z.log2 (Zpos d)).
  destruct (Z.log2_spec n Hn) as [Ha1 Ha2]. fold a in Ha1, Ha2.
  destruct (Z.log2_spec (Zpos d) ltac:(lia)) as [Hb1 Hb2]. fold b in Hb1, Hb2.
  assert (Ha0 : (0 <= a)%Z) by apply Z.log2_nonneg.
  assert (Hb0 : (0 <= b)%Z) by apply Z.log2_nonneg.
  assert (Hq' : n # d == inject_Z n / inject_Z (Zpos d)) by apply Qmake_Qdiv.
  assert (Hd : 0 < inject_Z (Zpos d)) by reflexivity.
  assert (Hpa : pow2 a == inject_Z (2 ^ a)) by (apply pow2_inject; exact Ha0).
  assert (Hpb : pow2 b == inject_Z (2 ^ b)) by (apply pow2_inject; exact Hb0).
  assert (Hpa1 : pow2 (a + 1) == inject_Z (2 ^ (a + 1))) by (apply pow2_inject; lia).
  assert (Hpb1 : pow2 (b + 1) == inject_Z (2 ^ (b + 1))) by (apply pow2_inject; lia).
  (* the bounds that hold in both cases *)
  assert (Hlow : pow2 (a - b - 1) <= n # d).
  { replace (a - b - 1)%Z with (a - (b + 1))%Z by lia.
    unfold pow2 at 1. rewrite Qpower_minus by discriminate.
    fold (pow2 a) (pow2 (b + 1)). rewrite Hpa, Hpb1, Hq'.
    apply Qdiv_le_cross; [apply inject_Z_pos; lia | exact Hd|].
    rewrite <- !inject_Z_mult, <- Zle_Qle. nia. }
  assert (Hhigh : n # d < pow2 (a - b + 1)).
  { replace (a - b + 1)%Z with (a + 1 - b)%Z by lia.
    unfold pow2 at 1. rewrite Qpower_minus by discriminate.
    fold (pow2 (a + 1)) (pow2 b). rewrite Hpa1, Hpb, Hq'.
    apply Qdiv_lt_cross; [exact Hd | apply inject_Z_pos; lia|].
    rewrite <- !inject_Z_mult, <- Zlt_Qlt. nia. }
  destruct (Qle_bool (pow2 (a - b)) (n # d)) eqn:Hle.
  - apply Qle_bool_iff in Hle. split; [exact Hle | exact Hhigh].
  - split; [exact Hlow|]. replace (a - b - 1 + 1)%Z with (a - b)%Z by lia.
    apply Qnot_le_lt. intros H. apply Qle_bool_iff in H. congruence.
Qed.

Lemma Qlog2_monotone (q1 q2 : Q) : 0 < q1 -> q1 <= q2 -> (Qlog2 q1 <= Qlog2 q2)%Z.
Proof.
  intros H1 H12.
  destruct (Qlog2_spec q1 H1) as [L1 _].
  destruct (Qlog2_spec q2 ltac:(lra)) as [_ U2].
  assert (H : pow2 (Qlog2 q1) < pow2 (Qlog2 q2 + 1)) by lra.
  apply pow2_lt_inv in H. lia.
Qed.

(** Rounding at a fixed exponent of the last place. *)
Lemma round_to_monotone (e : Z) (q1 q2 : Q) :
  q1 <= q2 -> round_to e q1 <= round_to e q2.
Proof.
  intros H. unfold round_to.
  pose proof (pow2_pos e) as He.
  apply Qmult_le_compat_r; [|lra].
  rewrite <- Zle_Qle. apply round_half_even_monotone.
  apply Qmult_le_compat_r; [exact H|].
  apply Qlt_le_weak, Qinv_lt_0_compat, He.
Qed.

(** A multiple of the last place is its own rounding. *)
Lemma round_to_fixed (e : Z) (m : Z) :
  round_to e (inject_Z m * pow2 e) == inject_Z m * pow2 e.
Proof.
  unfold round_to. pose proof (pow2_pos e) as He.
  assert (H : inject_Z m * pow2 e / pow2 e == inject_Z m) by (field; lra).
  rewrite (round_half_even_comp _ _ H), round_half_even_inject. reflexivity.
Qed.

Lemma round_to_nonneg (e : Z) (q : Q) : 0 <= q -> 0 <= round_to e q.
Proof.
  intros H. pose proof (round_to_monotone e 0 q H) as Hm.
  pose proof (round_to_fixed e 0) as H0.
  assert (Hz : inject_Z 0 * pow2 e == 0) by ring.
  assert (H0' : round_to e 0 == 0).
  { unfold round_to in *. 
    assert (Hq : 0 / pow2 e == inject_Z 0) by (unfold Qdiv; ring).
    rewrite (round_half_even_comp _ _ Hq), round_half_even_inject. ring. }
  lra.
Qed.

(** A power of two above the last place lies on the grid. *)
Lemma pow2_on_grid (e l : Z) :
  (e <= l)%Z -> pow2 l == inject_Z (2 ^ (l - e)) * pow2 e.
Proof.
  intros H. rewrite <- pow2_inject by lia. rewrite <- pow2_add.
  replace (l - e + e)%Z with l by lia. reflexivity.
Qed.

Lemma ulp_exponent_monotone (q1 q2 : Q) :
  0 < q1 -> q1 <= q2 -> (ulp_exponent q1 <= ulp_exponent q2)%Z.
Proof.
  intros H1 H12. unfold ulp_exponent.
  pose proof (Qlog2_monotone q1 q2 H1 H12). lia.
Qed.

(** Rounding a magnitude keeps the order. *)
Lemma round_magnitude_monotone (q1 q2 : Q) :
  0 < q1 -> q1 <= q2 -> round_magnitude q1 <= round_magnitude q2.
Proof.
  intros H1 H12. unfold round_magnitude.
  pose proof (ulp_exponent_monotone q1 q2 H1 H12) as He.
  destruct (Z.eq_dec (ulp_exponent q1) (ulp_exponent q2)) as [Heq|Hne].
  - rewrite Heq. apply round_to_monotone. exact H12.
  - assert (Hlt : (ulp_exponent q1 < ulp_exponent q2)%Z) by lia.
    set (e1 := ulp_exponent q1) in *. set (e2 := ulp_exponent q2) in *.
    set (l1 := Qlog2 q1). set (l2 := Qlog2 q2).
    assert (He1 : (l1 - 52 <= e1 /\ -1074 <= e1)%Z) by (unfold e1, ulp_exponent, l1; lia).
    assert (He2 : e2 = (l2 - 52)%Z) by (unfold e1, e2, ulp_exponent, l2 in *; lia).
    destruct (Qlog2_spec q1 H1) as [_ U1]. fold l1 in U1.
    destruct (Qlog2_spec q2 ltac:(lra)) as [L2 _]. fold l2 in L2.
    assert (Hl : (l1 + 1 <= l2)%Z) by lia.
    pose proof (pow2_le _ _ Hl) as Hp.
    apply Qle_trans with (pow2 l2).
    + rewrite (pow2_on_grid e1 l2) by lia.
      rewrite <- (round_to_fixed e1 (2 ^ (l2 - e1))).
      apply round_to_monotone. rewrite <- (pow2_on_grid e1 l2) by lia. lra.
    + rewrite (pow2_on_grid e2 l2) at 1 by lia.
      rewrite <- (round_to_fixed e2 (2 ^ (l2 - e2))).
      apply round_to_monotone. rewrite <- (pow2_on_grid e2 l2) by lia. exact L2.
Qed.

Lemma round_magnitude_nonneg (q : Q) : 0 <= q -> 0 <= round_magnitude q.
Proof. apply round_to_nonneg. Qed.

Lemma round_magnitude_weak (q1 q2 : Q) :
  0 <= q1 -> q1 <= q2 -> round_magnitude q1 <= round_magnitude q2.
Proof.
  intros H1 H12. destruct (Qlt_le_dec 0 q1) as [Hpos|Hzero].
  - apply round_magnitude_monotone; assumption.
  - assert (Hq : q1 == 0) by lra.
    apply Qle_trans with 0; [|apply round_magnitude_nonneg; lra].
    unfold round_magnitude, round_to.
    assert (Hd : q1 / pow2 (ulp_exponent q1) == inject_Z 0).
    { unfold Qdiv. apply Qeq_trans with (0 * / pow2 (ulp_exponent q1)); [|ring].
      apply Qmult_comp; [exact Hq | reflexivity]. }
    rewrite (round_half_even_comp _ _ Hd), round_half_even_inject.
    ring_simplify. apply Qle_refl.
Qed.

End RoundingFacts.

Section FloatFacts.
Local Open Scope Q_scope.

Lemma fle_Real (a b : Q) : fle (Real a) (Real b) <-> a <= b.
Proof. unfold fle. simpl. apply Qle_bool_iff. Qed.

Lemma fle_trans (x y z : pyfloat) : fle x y -> fle y z -> fle x z.
Proof.
  unfold fle. destruct x as [a| | |], y as [b| | |], z as [c| | |]; simpl;
    try discriminate; try reflexivity.
  rewrite !Qle_bool_iff. apply Qle_trans.
Qed.

Lemma fle_refl (x : pyfloat) : x <> NaN -> fle x x.
Proof.
  unfold fle. destruct x as [a| | |]; simpl; try reflexivity; [|congruence].
  intros _. apply Qle_bool_iff, Qle_refl.
Qed.

Lemma fltb_fle (x y : pyfloat) : fltb x y = true -> fle x y.
Proof.
  unfold fle. destruct x as [a| | |], y as [b| | |]; simpl; try discriminate;
    try reflexivity.
  intros H. apply Qle_bool_iff. apply negb_true_iff in H.
  apply Qlt_le_weak, Qnot_le_lt. intros Hle. apply Qle_bool_iff in Hle. congruence.
Qed.

Lemma fltb_false (x y : pyfloat) :
  x <> NaN -> y <> NaN -> fltb x y = false -> fle y x.
Proof.
  unfold fle. destruct x as [a| | |], y as [b| | |]; simpl; try discriminate;
    try reflexivity; try congruence.
  intros _ _ H. apply negb_false_iff in H. exact H.
Qed.

Lemma binary64_not_nan (q : Q) : binary64 q <> NaN.
Proof.
  unfold binary64. destruct (Qle_bool 0 q); cbv zeta;
    destruct (Qle_bool (pow2 1024) _); discriminate.
Qed.

Lemma Qle_bool_false (a b : Q) : Qle_bool a b = false -> b < a.
Proof.
  intros H. apply Qnot_le_lt. intros Hle. apply Qle_bool_iff in Hle. congruence.
Qed.

(** Rounding to binary64 keeps the order. *)
Lemma binary64_monotone (a b : Q) : a <= b -> fle (binary64 a) (binary64 b).
Proof.
  intros Hab. unfold binary64.
  destruct (Qle_bool 0 a) eqn:Ha; destruct (Qle_bool 0 b) eqn:Hb; cbv zeta.
  - apply Qle_bool_iff in Ha. apply Qle_bool_iff in Hb.
    pose proof (round_magnitude_weak a b Ha Hab) as Hr.
    destruct (Qle_bool (pow2 1024) (round_magnitude b)) eqn:Ob.
    + destruct (Qle_bool (pow2 1024) (round_magnitude a)); reflexivity.
    + apply Qle_bool_false in Ob.
      destruct (Qle_bool (pow2 1024) (round_magnitude a)) eqn:Oa.
      * apply Qle_bool_iff in Oa. lra.
      * apply fle_Real. rewrite !Qred_correct. exact Hr.
  - apply Qle_bool_iff in Ha. apply Qle_bool_false in Hb. lra.
  - apply Qle_bool_false in Ha. apply Qle_bool_iff in Hb.
    pose proof (round_magnitude_nonneg (- a) ltac:(lra)) as Ra.
    pose proof (round_magnitude_nonneg b Hb) as Rb.
    destruct (Qle_bool (pow2 1024) (round_magnitude (- a)));
      destruct (Qle_bool (pow2 1024) (round_magnitude b)); try reflexivity.
    apply fle_Real. rewrite !Qred_correct. lra.
  - apply Qle_bool_false in Ha. apply Qle_bool_false in Hb.
    pose proof (round_magnitude_monotone (- b) (- a) ltac:(lra) ltac:(lra)) as Hr.
    destruct (Qle_bool (pow2 1024) (round_magnitude (- a))) eqn:Oa.
    + destruct (Qle_bool (pow2 1024) (round_magnitude (- b))); reflexivity.
    + apply Qle_bool_false in Oa.
      destruct (Qle_bool (pow2 1024) (round_magnitude (- b))) eqn:Ob.
      * apply Qle_bool_iff in Ob. lra.
      * apply fle_Real. rewrite !Qred_correct. lra.
Qed.

Lemma fdiv2_monotone (x y : pyfloat) : fle x y -> fle (fdiv2 x) (fdiv2 y).
Proof.
  destruct x as [a| | |], y as [b| | |]; try (intros H; exact H); try discriminate.
  - intros H. apply fle_Real in H. apply binary64_monotone.
    unfold Qdiv. apply Qmult_le_compat_r; [exact H | discriminate].
  - intros _. simpl. pose proof (binary64_not_nan (a / 2)) as Hn.
    unfold fle. destruct (binary64 (a / 2)); try reflexivity. congruence.
  - intros _. simpl. pose proof (binary64_not_nan (b / 2)) as Hn.
    unfold fle. destruct (binary64 (b / 2)); try reflexivity. congruence.
Qed.

Lemma one_minus_antitone (x y : pyfloat) :
  fle x y -> fle (fsub (Real 1) y) (fsub (Real 1) x).
Proof.
  destruct x as [a| | |], y as [b| | |]; try discriminate; try reflexivity.
  - intros H. apply fle_Real in H. apply binary64_monotone. lra.
  - intros _. simpl. pose proof (binary64_not_nan (1 - a)) as Hn.
    unfold fle. destruct (binary64 (1 - a)); try reflexivity. congruence.
  - intros _. simpl. pose proof (binary64_not_nan (1 - b)) as Hn.
    unfold fle. destruct (binary64 (1 - b)); try reflexivity. congruence.
Qed.

Lemma py_max_zero_nonneg (x : pyfloat) : fle (Real 0) (py_max (Real 0) x).
Proof.
  unfold py_max. destruct (fltb (Real 0) x) eqn:H.
  - apply fltb_fle. exact H.
  - reflexivity.
Qed.

Lemma py_max_zero_monotone (x y : pyfloat) :
  fle x y -> fle (py_max (Real 0) x) (py_max (Real 0) y).
Proof.
  intros H. unfold py_max.
  destruct (fltb (Real 0) x) eqn:Hx; destruct (fltb (Real 0) y) eqn:Hy.
  - exact H.
  - exfalso.
    assert (Hy' : fle y (Real 0)).
    { apply fltb_false; [discriminate | | exact Hy].
      intros ->. destruct x; discriminate. }
    pose proof (fle_trans _ _ _ H Hy') as Hx0.
    destruct x as [a| | |]; try discriminate.
    apply fle_Real in Hx0. simpl in Hx.
    apply negb_true_iff, Qle_bool_false in Hx. lra.
  - apply fltb_fle. exact Hy.
  - reflexivity.
Qed.

(** The similarity is a number, and it is not negative. *)
Lemma similarity_nonneg (d : pyfloat) : fle (Real 0) (similarity d).
Proof. apply py_max_zero_nonneg. Qed.

Lemma similarity_antitone (d1 d2 : pyfloat) :
  fle d1 d2 -> fle (similarity d2) (similarity d1).
Proof.
  intros H. unfold similarity.
  apply py_max_zero_monotone, one_minus_antitone, fdiv2_monotone, H.
Qed.

Lemma round4_monotone (x y : pyfloat) : fle x y -> fle (round4 x) (round4 y).
Proof.
  destruct x as [a| | |], y as [b| | |]; try discriminate; try reflexivity.
  - intros H. apply fle_Real in H. apply binary64_monotone.
    assert (Hz : (round_half_even (a * 10000) <= round_half_even (b * 10000))%Z)
      by (apply round_half_even_monotone; lra).
    rewrite Zle_Qle in Hz.
    unfold Qdiv. change (/ 10000) with (1 # 10000). lra.
  - intros _. simpl. pose proof (binary64_not_nan
      (inject_Z (round_half_even (a * 10000)) / 10000)) as Hn.
    unfold fle. destruct (binary64 _); try reflexivity. congruence.
  - intros _. simpl. pose proof (binary64_not_nan
      (inject_Z (round_half_even (b * 10000)) / 10000)) as Hn.
    unfold fle. destruct (binary64 _); try reflexivity. congruence.
Qed.

End FloatFacts.

(** The rounding agrees with the binary64 arithmetic of the kernel on the
    sample distances, and reads decimal literals as the parser does. *)
Example similarity_agrees_with_hardware :
  List.map (fun d => Hardware.of_float (Hardware.similarity d)) Hardware.samples
  = List.map (fun d => similarity (Hardware.of_float d)) Hardware.samples.
Proof. vm_compute. reflexivity. Qed.

Example binary64_reads_literals :
  List.map (fun l => binary64 (fst l)) Hardware.literals
  = List.map (fun l => Hardware.of_float (snd l)) Hardware.literals.
Proof. vm_compute. reflexivity. Qed.

(** ** Distance to similarity *)

(** C5: the similarity of distance 0 is 1, that of distance 2 is 0, the
    similarity does not increase with the distance, and for a distance in
    [0, 2] it lies in [0, 1], also once rounded to four decimals. *)
Theorem similarity_properties :
  similarity (Real 0) = Real 1
  /\ similarity (Real 2) = Real 0
  /\ (forall d1 d2, fle d1 d2 -> fle (similarity d2) (similarity d1))
  /\ (forall d, fle (Real 0) d -> fle d (Real 2) ->
        fle (Real 0) (similarity d) /\ fle (similarity d) (Real 1)
        /\ fle (Real 0) (round4 (similarity d))
        /\ fle (round4 (similarity d)) (Real 1)).
Proof.
  assert (S0 : similarity (Real 0) = Real 1) by (vm_compute; reflexivity).
  assert (S2 : similarity (Real 2) = Real 0) by (vm_compute; reflexivity).
  split; [exact S0|]. split; [exact S2|]. split; [exact similarity_antitone|].
  intros d H0 H2.
  pose proof (similarity_nonneg d) as Hlo.
  pose proof (similarity_antitone _ _ H0) as Hhi. rewrite S0 in Hhi.
  split; [exact Hlo|]. split; [exact Hhi|].
  split.
  - change (Real 0) with (round4 (Real 0)) at 1.
    apply round4_monotone. exact Hlo.
  - assert (R1 : round4 (Real 1) = Real 1) by (vm_compute; reflexivity).
    rewrite <- R1. apply round4_monotone. exact Hhi.
Qed.

Lemma similarity_properties_witness :
  fle (Real (1 # 2)) (Real (3 # 2))
  /\ fle (similarity (Real (3 # 2))) (similarity (Real (1 # 2)))
  /\ fle (Real 0) (round4 (similarity (Real (3 # 2))))
  /\ fle (round4 (similarity (Real (3 # 2)))) (Real 1).
Proof.
  destruct similarity_properties as (_ & _ & Hmono & Hrange).
  split; [reflexivity|]. split; [apply Hmono; reflexivity|].
  apply (Hrange (Real (3 # 2))); reflexivity.
Defined.

(** The subtraction is rounded before [round] sees it: at the distance
    0.9989 the similarity is the float 0.50055 and its rounding 0.5006,
    where the exact difference would round to 0.5005. *)
Example similarity_rounds_twice :
  round4 (similarity (binary64 (9989 # 10000))) = binary64 (5006 # 10000).
Proof. vm_compute. reflexivity. Qed.

Example similarity_rounds :
  round4 (similarity (binary64 (19992 # 100000))) = binary64 (9 # 10).
Proof. vm_compute. reflexivity. Qed.

(** ** The identity assigner *)

Section IdentityFacts.

(** [str] of an integer determines the integer. *)
Lemma str_of_int_inj (i j : Z) : str_of_int i = str_of_int j -> i = j.
Proof.
  unfold str_of_int. intros H.
  assert (Hnil : forall z, Z.to_int z <> Decimal.Pos Decimal.Nil
                           /\ Z.to_int z <> Decimal.Neg Decimal.Nil).
  { intros [|p|p]; simpl; split; try discriminate;
      intros [= E]; exact (DecimalPos.Unsigned.to_uint_nonnil p E). }
  assert (Hascii : forall a b, N_of_ascii a = N_of_ascii b -> a = b).
  { intros a b E. rewrite <- (ascii_N_embedding a), <- (ascii_N_embedding b), E.
    reflexivity. }
  assert (Hmap : forall l1 l2 : list ascii,
             List.map N_of_ascii l1 = List.map N_of_ascii l2 -> l1 = l2).
  { induction l1 as [|a l1 IH]; intros [|b l2]; simpl; try discriminate;
      [reflexivity|]. intros [= E1 E2]. f_equal; auto. }
  apply Hmap in H.
  apply (f_equal string_of_list_ascii) in H.
  rewrite !string_of_list_ascii_of_string in H.
  apply (f_equal NilZero.int_of_string) in H.
  destruct (Hnil i), (Hnil j).
  rewrite !NilZero.isi in H by assumption.
  injection H as H. apply DecimalZ.to_int_inj. exact H.
Qed.

Lemma hex_digit_is_hex (n : Z) : 0 <= n <= 15 -> is_hex (MD5.hex_digit n).
Proof.
  intros H. unfold is_hex, MD5.hex_digit.
  destruct (Z.ltb_spec n 10); rewrite Z2N.id by lia; [left | right]; lia.
Qed.

Lemma le_bytes_length (n : nat) (w : Z) : length (MD5.le_bytes n w) = n.
Proof. revert w. induction n as [|n IH]; intros w; simpl; [|rewrite IH]; reflexivity. Qed.

Lemma le_bytes_range (n : nat) (w : Z) :
  Forall (fun b => 0 <= b <= 255) (MD5.le_bytes n w).
Proof.
  revert w. induction n as [|n IH]; intros w; simpl; constructor; [|apply IH].
  change (Z.land w 255) with (Z.land w (Z.ones 8)).
  rewrite Z.land_ones by lia.
  pose proof (Z.mod_pos_bound w (2 ^ 8) ltac:(lia)). lia.
Qed.

Lemma digest_length (msg : list Z) : length (MD5.digest msg) = 16%nat.
Proof. unfold MD5.digest. rewrite !length_app, !le_bytes_length. reflexivity. Qed.

Lemma digest_range (msg : list Z) :
  Forall (fun b => 0 <= b <= 255) (MD5.digest msg).
Proof. unfold MD5.digest. rewrite !Forall_app. repeat split; apply le_bytes_range. Qed.

Lemma hex_of_bytes (bs : list Z) :
  Forall (fun b => 0 <= b <= 255) bs ->
  length (flat_map MD5.hex_of_byte bs) = (2 * length bs)%nat
  /\ Forall is_hex (flat_map MD5.hex_of_byte bs).
Proof.
  induction 1 as [|b bs Hb _ [IHl IHh]]; simpl; [split; [reflexivity | constructor]|].
  split; [lia|].
  constructor; [|constructor; [|exact IHh]]; apply hex_digit_is_hex.
  - rewrite Z.shiftr_div_pow2 by lia. change (2 ^ 4) with 16.
    split; [apply Z.div_pos; lia|].
    assert (b / 16 < 16) by (apply Z.div_lt_upper_bound; lia). lia.
  - change (Z.land b 15) with (Z.land b (Z.ones 4)).
    rewrite Z.land_ones by lia.
    pose proof (Z.mod_pos_bound b (2 ^ 4) ltac:(lia)). lia.
Qed.

(** [hexdigest()] is 32 lowercase hexadecimal digits. *)
Lemma hexdigest_shape (msg : list Z) :
  length (MD5.hexdigest msg) = 32%nat /\ Forall is_hex (MD5.hexdigest msg).
Proof.
  destruct (hex_of_bytes _ (digest_range msg)) as [Hl Hh].
  rewrite digest_length in Hl. split; assumption.
Qed.

(** For one hash, the id determines the ordinal. *)
Lemma make_id_inj (hash_val : pystr) (i j : Z) :
  make_id hash_val i = make_id hash_val j -> i = j.
Proof.
  unfold make_id. intros H.
  apply app_inv_head in H. apply app_inv_head in H.
  apply str_of_int_inj. exact H.
Qed.

(** [encode] returns on the strings without a surrogate, and on those
    only; it always comes back. *)
Lemma utf8_encode_from_encodable (i : Z) (s : pystr) :
  encodable s ->
  utf8_encode_from i s = Returns (flat_map utf8_encode_char s).
Proof.
  intros Hs. revert i. induction Hs as [|c s Hc _ IH]; intros i;
    cbn [utf8_encode_from flat_map]; [reflexivity|].
  rewrite Hc, IH. reflexivity.
Qed.

Lemma utf8_encode_from_cases (i : Z) (s : pystr) :
  (encodable s /\ utf8_encode_from i s = Returns (flat_map utf8_encode_char s))
  \/ (~ encodable s /\ exists e, utf8_encode_from i s = Raises e).
Proof.
  revert i. induction s as [|c s IH]; intros i.
  - left. split; [constructor | reflexivity].
  - cbn [utf8_encode_from]. destruct (is_surrogate c) eqn:Hc.
    + right. split; [|eauto]. intros H. inversion H; congruence.
    + destruct (IH (i + 1)) as [[Hs ->]|[Hs [e ->]]].
      * left. split; [constructor; assumption | reflexivity].
      * right. split; [|eauto]. intros H. inversion H; contradiction.
Qed.

(** The hash of an encodable path, as [_get_doc_id] cuts it. *)
Lemma get_doc_id_encodable (file_path : pystr) (i : Z) :
  encodable file_path ->
  _get_doc_id file_path i
  = Returns (make_id
               (firstn 8 (MD5.hexdigest (flat_map utf8_encode_char file_path))) i).
Proof.
  intros H. unfold _get_doc_id, utf8_encode.
  rewrite (utf8_encode_from_encodable 0 file_path H). reflexivity.
Qed.

Lemma get_doc_id_returns (file_path : pystr) (i : Z) (id : pystr) :
  _get_doc_id file_path i = Returns id ->
  encodable file_path
  /\ id = make_id
            (firstn 8 (MD5.hexdigest (flat_map utf8_encode_char file_path))) i.
Proof.
  unfold _get_doc_id, utf8_encode.
  destruct (utf8_encode_from_cases 0 file_path) as [[Hs ->]|[Hs [e ->]]];
    [|discriminate].
  intros [= <-]. split; [exact Hs | reflexivity].
Qed.

Lemma get_doc_id_cases (file_path : pystr) :
  (encodable file_path
   /\ forall i, _get_doc_id file_path i
               = Returns (make_id (firstn 8 (MD5.hexdigest
                            (flat_map utf8_encode_char file_path))) i))
  \/ (~ encodable file_path
      /\ exists e, forall i, _get_doc_id file_path i = Raises e).
Proof.
  unfold _get_doc_id, utf8_encode.
  destruct (utf8_encode_from_cases 0 file_path) as [[Hs ->]|[Hs [e ->]]].
  - left. split; [exact Hs | reflexivity].
  - right. split; [exact Hs|]. exists e. reflexivity.
Qed.

(** For one path, the id determines the ordinal. *)
Lemma get_doc_id_inj (file_path : pystr) (i j : Z) (id : pystr) :
  _get_doc_id file_path i = Returns id ->
  _get_doc_id file_path j = Returns id -> i = j.
Proof.
  intros Hi Hj.
  apply get_doc_id_returns in Hi as [_ ->].
  apply get_doc_id_returns in Hj as [_ Hj].
  exact (make_id_inj _ _ _ Hj).
Qed.

(** A comprehension whose calls all return is a [map]. *)
Lemma map_outcome_returns {A B : Type} (f : A -> outcome B) (g : A -> B)
  (l : list A) :
  (forall a, f a = Returns (g a)) -> map_outcome f l = Returns (List.map g l).
Proof.
  intros H. induction l as [|a l IH]; cbn [map_outcome List.map]; [reflexivity|].
  rewrite H, IH. reflexivity.
Qed.

Lemma map_outcome_raises {A B : Type} (f : A -> outcome B) (e : pystr)
  (l : list A) :
  (forall a, f a = Raises e) -> l <> [] -> map_outcome f l = Raises e.
Proof.
  intros H Hl. destruct l as [|a l]; [congruence|].
  cbn [map_outcome]. rewrite H. reflexivity.
Qed.

(** The ids of one generation are pairwise distinct. *)
Lemma generation_NoDup (hash_val : pystr) (n : nat) :
  NoDup (generation hash_val n).
Proof.
  apply NoDup_fmap_2; [intros i j; apply make_id_inj|].
  unfold range. apply NoDup_fmap_2; [intros i j; apply Nat2Z.inj|].
  apply NoDup_ListNoDup, List.seq_NoDup.
Qed.

(** The comprehension of [index_document] over the ordinals. *)
Lemma generation_ids_cases (file_path : pystr) (n : nat) :
  (encodable file_path
   /\ map_outcome (_get_doc_id file_path) (range n)
      = Returns (generation (firstn 8 (MD5.hexdigest
                   (flat_map utf8_encode_char file_path))) n))
  \/ (~ encodable file_path
      /\ exists e, forall m, m <> O ->
           map_outcome (_get_doc_id file_path) (range m) = Raises e).
Proof.
  destruct (get_doc_id_cases file_path) as [[Hs Hid]|[Hs [e Hid]]].
  - left. split; [exact Hs|]. apply map_outcome_returns. exact Hid.
  - right. split; [exact Hs|]. exists e. intros m Hm.
    apply map_outcome_raises; [exact Hid|].
    unfold range. destruct m; [congruence | discriminate].
Qed.

Lemma generation_ids_NoDup (file_path : pystr) (n : nat) (ids : list pystr) :
  map_outcome (_get_doc_id file_path) (range n) = Returns ids -> NoDup ids.
Proof.
  destruct (generation_ids_cases file_path n) as [[_ ->]|[_ [e He]]].
  - intros [= <-]. apply generation_NoDup.
  - destruct n as [|n]; [intros [= <-]; constructor|].
    rewrite He by discriminate. discriminate.
Qed.

Lemma elem_of_generation_ids (file_path : pystr) (n : nat) (ids : list pystr) k :
  map_outcome (_get_doc_id file_path) (range n) = Returns ids ->
  k ∈ ids <-> exists i, 0 <= i < Z.of_nat n /\ _get_doc_id file_path i = Returns k.
Proof.
  destruct (generation_ids_cases file_path n) as [[Hs ->]|[_ [e He]]].
  - intros [= <-]. unfold generation, range.
    rewrite list_elem_of_In, in_map_iff. split.
    + intros (z & <- & Hz). apply in_map_iff in Hz as (i & <- & Hi).
      apply in_seq in Hi. exists (Z.of_nat i). split; [lia|].
      apply get_doc_id_encodable. exact Hs.
    + intros (i & Hi & Hid). rewrite (get_doc_id_encodable _ _ Hs) in Hid.
      injection Hid as <-. exists i. split; [reflexivity|].
      apply in_map_iff. exists (Z.to_nat i). split; [lia|]. apply in_seq. lia.
  - destruct n as [|n].
    + intros [= <-]. split; [intros H; by apply not_elem_of_nil in H|].
      intros (i & Hi & _). simpl in Hi. lia.
    + rewrite He by discriminate. discriminate.
Qed.

End IdentityFacts.

(** C10: on a path that [encode] accepts, the id of a chunk is the first
    8 hexadecimal digits of the MD5 of the path, an underscore and the
    ordinal in decimal; no id is given for another path, where every
    call raises; the id is a function of the path and the ordinal, and
    for one path two distinct ordinals never get the same id. *)
Theorem get_doc_id_shape_and_injective (file_path : pystr) :
  (encodable file_path ->
   exists hash_val : pystr,
     utf8_encode file_path
     = Returns (flat_map utf8_encode_char file_path)
     /\ hash_val
        = firstn 8 (MD5.hexdigest (flat_map utf8_encode_char file_path))
     /\ length hash_val = 8%nat
     /\ Forall is_hex hash_val
     /\ forall i : Z,
          _get_doc_id file_path i
          = Returns (hash_val ++ [95%N] ++ str_of_int i))
  /\ (~ encodable file_path ->
      exists e, utf8_encode file_path = Raises e
                /\ forall i : Z, _get_doc_id file_path i = Raises e)
  /\ (forall (i j : Z) (id : pystr),
        _get_doc_id file_path i = Returns id ->
        _get_doc_id file_path j = Returns id -> i = j).
Proof.
  split; [|split].
  - intros Hs.
    destruct (hexdigest_shape (flat_map utf8_encode_char file_path)) as [Hl Hh].
    eexists. split; [apply utf8_encode_from_encodable; exact Hs|].
    split; [reflexivity|].
    split; [rewrite length_take, Hl; reflexivity|].
    split; [apply Forall_take; exact Hh|].
    intros i. apply get_doc_id_encodable. exact Hs.
  - intros Hs. unfold _get_doc_id, utf8_encode.
    destruct (utf8_encode_from_cases 0 file_path) as [[Hs' _]|[_ [e ->]]];
      [contradiction|].
    exists e. split; reflexivity.
  - intros i j id. apply get_doc_id_inj.
Qed.

Lemma get_doc_id_shape_and_injective_witness :
  encodable (lit "a.md")
  /\ _get_doc_id (lit "a.md") 7 = Returns (lit "b00a1cca_7")
  /\ exists hash_val : pystr,
       length hash_val = 8%nat
       /\ forall i : Z,
            _get_doc_id (lit "a.md") i
            = Returns (hash_val ++ [95%N] ++ str_of_int i).
Proof.
  assert (H : encodable (lit "a.md")) by (vm_compute; repeat constructor).
  split; [exact H|]. split; [vm_compute; reflexivity|].
  destruct (proj1 (get_doc_id_shape_and_injective (lit "a.md")) H)
    as (hash_val & _ & _ & Hl & _ & Hid).
  exists hash_val. split; [exact Hl | exact Hid].
Defined.

(** The ids Python computes for two paths. *)
Example get_doc_id_a_md : _get_doc_id (lit "a.md") 0 = Returns (lit "b00a1cca_0").
Proof. vm_compute. reflexivity. Qed.

Example get_doc_id_cjk :
  _get_doc_id (lit "/tmp/文件.md") 12 = Returns (lit "27e4ed31_12").
Proof. vm_compute. reflexivity. Qed.

(** What Python raises on a path with a lone surrogate, as a file name
    that is not UTF-8 has once decoded, and on a run of surrogates. *)
Example get_doc_id_surrogate :
  _get_doc_id [97; 56448; 98]%N 0
  = Raises (lit "'utf-8' codec can't encode character '\udc80' in position 1: surrogates not allowed").
Proof. vm_compute. reflexivity. Qed.

Example get_doc_id_surrogates :
  _get_doc_id [97; 98; 57343; 55296; 99]%N 0
  = Raises (lit "'utf-8' codec can't encode characters in position 2-3: surrogates not allowed").
Proof. vm_compute. reflexivity. Qed.

(** ** The index manager *)

Section IndexFacts.
Context {Store Embedding : Type} {C : Collaborators Store Embedding}.

Lemma notify_returns cb msg (st : Store) :
  callback_returns cb msg -> notify cb msg st = (Returns tt, st).
Proof. unfold callback_returns, notify, call. intros ->. reflexivity. Qed.

(** [delete_document] has its own [try]: it raises nothing. *)
Lemma delete_document_never_raises (file_path : pystr) (st : Store) :
  forall e st', delete_document file_path st <> (Raises e, st').
Proof.
  intros e st'. unfold delete_document, try_except, bind, reading, updating, ret.
  destruct (coll_get st) as [rows| |]; try discriminate.
  destruct (ids_to_delete file_path rows) as [|i ids]; try discriminate.
  destruct (coll_delete (i :: ids) st); discriminate.
Qed.

(** Once the statements before the [try] have returned, the run is that
    of the [try]. *)
Lemma index_document_config fuel cfg file_path cb (st : Store) :
  index_document fuel (Returns cfg) file_path cb st
  = try_except (index_body fuel cfg file_path cb)
      (fun e => ret (index_failure e)) st.
Proof. reflexivity. Qed.

(** The run of [index_document] up to the split, when nothing before it
    raises. *)
Lemma index_body_split fuel cfg file_path cb (st : Store) parts :
  callback_returns cb (loading_message file_path) ->
  read_parts file_path = Returns parts ->
  index_body fuel cfg file_path cb st
  = bind (of_fuel (split_all fuel cfg
                     (List.map (_build_chunk (path_name file_path) file_path) parts)))
      (index_chunks file_path cb) st.
Proof.
  intros Hcb Hparts. unfold index_body.
  unfold bind at 1. rewrite (notify_returns _ _ _ Hcb).
  unfold bind at 1. unfold call at 1, load_document. rewrite Hparts.
  reflexivity.
Qed.

(** The run from the chunks up to the deletion, when nothing before it
    raises. *)
Lemma index_chunks_encoded file_path cb (st : Store) all_chunks embeddings :
  all_chunks <> [] ->
  callback_returns cb (embedding_message (length all_chunks)) ->
  encode (List.map text all_chunks) = Returns embeddings ->
  index_chunks file_path cb all_chunks st
  = replace_generation file_path all_chunks embeddings st.
Proof.
  intros Hne Hcb Henc. destruct all_chunks as [|c rest]; [congruence|].
  unfold index_chunks. cbv zeta.
  unfold bind at 1. rewrite (notify_returns _ _ _ Hcb).
  unfold bind at 1, call at 1. rewrite Henc. reflexivity.
Qed.

Lemma update_extra_source (m : metadata) (extra : list (extra_key * pystr)) :
  update_extra m extra !! lit "source" = m !! lit "source".
Proof.
  unfold update_extra. revert m.
  induction extra as [|[k v] extra IH]; intros m; cbn [fold_left]; [reflexivity|].
  rewrite IH. apply lookup_insert_ne. destruct k; vm_compute; discriminate.
Qed.

Lemma update_extra_filename (m : metadata) (extra : list (extra_key * pystr)) :
  update_extra m extra !! lit "filename" = m !! lit "filename".
Proof.
  unfold update_extra. revert m.
  induction extra as [|[k v] extra IH]; intros m; cbn [fold_left]; [reflexivity|].
  rewrite IH. apply lookup_insert_ne. destruct k; vm_compute; discriminate.
Qed.

(** The metadata of a chunk built for a path names the path and its file
    name, whatever the extras. *)
Lemma build_chunk_built_for (name file_path : pystr) (p : part) :
  built_for file_path name (meta (_build_chunk name file_path p)).
Proof.
  unfold built_for, _build_chunk. cbn [meta].
  rewrite update_extra_source, update_extra_filename, lookup_insert_eq.
  split; [reflexivity|].
  rewrite lookup_insert_ne by (vm_compute; discriminate).
  apply lookup_insert_eq.
Qed.

Lemma built_for_matches (file_path name : pystr) (md : metadata) :
  built_for file_path name md -> matches file_path name md = true.
Proof.
  intros [Hs _]. unfold matches. rewrite bool_decide_eq_true_2 by exact Hs.
  reflexivity.
Qed.

(** A chunk built for a path matches the test of [delete_document] for
    that path. *)
Lemma build_chunk_matches (name file_path : pystr) (p : part) :
  matches file_path name (meta (_build_chunk name file_path p)) = true.
Proof. apply built_for_matches, build_chunk_built_for. Qed.

(** Splitting hands the metadata of the raw chunks down. *)
Lemma split_all_meta (P : metadata -> Prop) fuel cfg (raw_chunks all_chunks : list chunk) :
  Forall (fun c => P (meta c)) raw_chunks ->
  split_all fuel cfg raw_chunks = Some all_chunks ->
  Forall (fun c => P (meta c)) all_chunks.
Proof.
  intros Hraw. revert all_chunks.
  induction Hraw as [|raw rest Hr _ IH]; intros all_chunks; cbn [split_all].
  - intros [= <-]. constructor.
  - destruct (_split_text fuel (text raw) (chunk_size cfg) (chunk_overlap cfg))
      as [subs|]; [|discriminate].
    destruct (split_all fuel cfg rest) as [more|]; [|discriminate].
    intros [= <-]. apply Forall_app. split; [|apply IH; reflexivity].
    apply Forall_map. apply Forall_forall. intros sub _. exact Hr.
Qed.

(** A run that ends before the store is touched: the same outcome
    whatever the store, which is left as it was. *)
Local Ltac ends_early tac :=
  left; eexists; split; [|intros st; rewrite index_document_config; tac; reflexivity];
  intros res Hres; first [discriminate Hres | injection Hres as <-; reflexivity].

(** Up to the embeddings [index_document] does not look at the store:
    either it ends there, with the store it started from, or it goes on
    with chunks that were all built for the path. *)
Lemma index_document_prefix fuel prelude file_path cb :
  (exists o, (forall res, o = Returns res -> success res = false)
             /\ forall st : Store,
                 index_document fuel prelude file_path cb st = (o, st))
  \/ (exists all_chunks embeddings,
        all_chunks <> []
        /\ Forall (fun c => built_for file_path (path_name file_path) (meta c))
             all_chunks
        /\ forall st : Store,
            index_document fuel prelude file_path cb st
            = store_chunks file_path all_chunks embeddings st).
Proof.
  destruct prelude as [cfg|e|].
  2,3: left; eexists; split; [|intros st; reflexivity]; intros res; discriminate.
  unfold store_chunks.
  destruct (notify_outcome cb (loading_message file_path)) as [[]| |] eqn:H1.
  2,3: ends_early ltac:(unfold try_except, index_body, bind, notify, call, ret;
                        rewrite H1).
  destruct (read_parts file_path) as [parts| |] eqn:Hparts.
  2,3: ends_early ltac:(unfold try_except, index_body, bind, notify, call,
                          load_document, ret;
                        rewrite H1, Hparts).
  assert (Hbody : forall st : Store,
             index_body fuel cfg file_path cb st
             = bind (of_fuel (split_all fuel cfg
                      (List.map (_build_chunk (path_name file_path) file_path) parts)))
                 (index_chunks file_path cb) st)
    by (intros st; apply index_body_split; assumption).
  destruct (split_all fuel cfg
              (List.map (_build_chunk (path_name file_path) file_path) parts))
    as [all_chunks|] eqn:Hsplit.
  2: ends_early ltac:(unfold try_except; rewrite Hbody).
  assert (Hall : Forall (fun c => built_for file_path (path_name file_path) (meta c))
                   all_chunks).
  { refine (split_all_meta (built_for file_path (path_name file_path))
              fuel cfg _ _ _ Hsplit).
    apply Forall_map, Forall_forall. intros p _. apply build_chunk_built_for. }
  destruct all_chunks as [|c rest].
  { ends_early ltac:(unfold try_except; rewrite Hbody). }
  destruct (notify_outcome cb (embedding_message (length (c :: rest))))
    as [[]| |] eqn:H2.
  2,3: ends_early ltac:(unfold try_except; rewrite Hbody;
         unfold of_fuel, bind at 1, ret at 1; unfold index_chunks; cbv zeta;
         unfold bind at 1, notify at 1, call at 1; rewrite H2).
  destruct (encode (List.map text (c :: rest))) as [embeddings| |] eqn:Henc.
  2,3: ends_early ltac:(unfold try_except; rewrite Hbody;
         unfold of_fuel, bind at 1, ret at 1; unfold index_chunks; cbv zeta;
         unfold bind at 1, notify at 1, call at 1; rewrite H2;
         unfold bind at 1, call at 1; rewrite Henc).
  right. exists (c :: rest), embeddings. split; [discriminate|].
  split; [exact Hall|]. intros st. rewrite index_document_config.
  unfold try_except. rewrite Hbody.
  unfold of_fuel, bind at 1, ret at 1.
  rewrite (index_chunks_encoded file_path cb st (c :: rest) embeddings
             ltac:(discriminate) H2 Henc).
  reflexivity.
Qed.

(** A run of [index_document] that reports a success went through every
    stage: the chunks were built for the path and encoded, and the result
    is that of the replacement of the old generation. *)
Lemma index_document_success fuel prelude file_path cb (st st1 : Store) res :
  index_document fuel prelude file_path cb st = (Returns res, st1) ->
  success res = true ->
  exists all_chunks embeddings,
    all_chunks <> []
    /\ Forall (fun c => built_for file_path (path_name file_path) (meta c))
         all_chunks
    /\ store_chunks file_path all_chunks embeddings st = (Returns res, st1).
Proof.
  intros Hrun Hok.
  destruct (index_document_prefix fuel prelude file_path cb)
    as [(o & Hfalse & Ho)|(all_chunks & embeddings & Hne & Hall & Hsame)].
  - rewrite Ho in Hrun. injection Hrun as -> _.
    rewrite (Hfalse res eq_refl) in Hok. discriminate.
  - rewrite Hsame in Hrun. eauto.
Qed.

(** What the stages of the [try] before the deletion turn a raise into. *)
Lemma index_document_catches fuel cfg file_path cb (st : Store) :
  (forall e st', index_document fuel (Returns cfg) file_path cb st <> (Raises e, st'))
  /\ (forall e st',
        index_body fuel cfg file_path cb st = (Raises e, st') ->
        index_document fuel (Returns cfg) file_path cb st
        = (Returns (index_failure e), st'))
  /\ (forall e,
        callback_returns cb (loading_message file_path) ->
        read_parts file_path = Raises e ->
        index_document fuel (Returns cfg) file_path cb st
        = (Returns (index_failure e), st)).
Proof.
  split; [|split].
  - intros e st'. rewrite index_document_config. unfold try_except, ret.
    destruct (index_body fuel cfg file_path cb st) as [[r|e'|] s']; discriminate.
  - intros e st' Hbody. rewrite index_document_config. unfold try_except.
    rewrite Hbody. reflexivity.
  - intros e Hcb Hparts. rewrite index_document_config.
    unfold try_except, index_body.
    unfold bind at 1. rewrite (notify_returns _ _ _ Hcb).
    unfold bind at 1, call at 1, load_document. rewrite Hparts. reflexivity.
Qed.

End IndexFacts.

(** C3: when no chunk is left after splitting, [index_document] answers
    [{success: false, chunks: 0}] with the message of the empty document,
    and the store is the one it started from. *)
Theorem index_document_empty {Store Embedding : Type}
  {C : Collaborators Store Embedding} fuel cfg file_path cb (st : Store) parts :
  callback_returns cb (loading_message file_path) ->
  read_parts file_path = Returns parts ->
  split_all fuel cfg
    (List.map (_build_chunk (path_name file_path) file_path) parts) = Some [] ->
  index_document fuel (Returns cfg) file_path cb st
  = (Returns {| success := false; chunks := 0; message := lit "文件內容為空" |},
     st).
Proof.
  intros Hcb Hparts Hsplit. rewrite index_document_config. unfold try_except.
  rewrite (index_body_split _ _ _ _ _ _ Hcb Hparts), Hsplit. reflexivity.
Qed.

Lemma index_document_empty_witness :
  callback_returns None (loading_message (C := Scripted.blank_document) (lit "a.md"))
  /\ read_parts (Collaborators := Scripted.blank_document) (lit "a.md")
     = Scripted.one_part (lit "   ")
  /\ split_all 0 default_config
       [_build_chunk (lit "a.md") (lit "a.md")
          {| part_text := lit "   "; part_page := 0; part_extra := [] |}]
     = Some []
  /\ index_document (C := Scripted.blank_document)
       0 (Returns default_config) (lit "a.md") None [lit "kept"]
     = (Returns {| success := false; chunks := 0; message := lit "文件內容為空" |},
        [lit "kept"]).
Proof.
  split; [reflexivity|]. split; [reflexivity|].
  split; [vm_compute; reflexivity|].
  apply (index_document_empty (C := Scripted.blank_document)
           0%nat default_config (lit "a.md") None [lit "kept"]
           [{| part_text := lit "   "; part_page := 0; part_extra := [] |}]);
    [reflexivity | reflexivity | vm_compute; reflexivity].
Defined.

(** C9: when the embedding call raises, [index_document] answers the
    failure result carrying the cause, and the store is the one it
    started from: the prior generation is still there. *)
Theorem index_document_encode_raises {Store Embedding : Type}
  {C : Collaborators Store Embedding} fuel cfg file_path cb (st : Store)
  parts all_chunks e :
  callback_returns cb (loading_message file_path) ->
  read_parts file_path = Returns parts ->
  split_all fuel cfg
    (List.map (_build_chunk (path_name file_path) file_path) parts)
  = Some all_chunks ->
  all_chunks <> [] ->
  callback_returns cb (embedding_message (length all_chunks)) ->
  encode (List.map text all_chunks) = Raises e ->
  index_document fuel (Returns cfg) file_path cb st
  = (Returns {| success := false; chunks := 0;
                message := lit "索引失敗：" ++ e |}, st).
Proof.
  intros Hcb Hparts Hsplit Hne Hcb2 Henc. rewrite index_document_config.
  unfold try_except.
  rewrite (index_body_split _ _ _ _ _ _ Hcb Hparts), Hsplit.
  destruct all_chunks as [|c rest]; [congruence|].
  unfold of_fuel, bind at 1, ret at 1. unfold index_chunks. cbv zeta.
  unfold bind at 1. rewrite (notify_returns _ _ _ Hcb2).
  unfold bind at 1, call at 1. rewrite Henc. reflexivity.
Qed.

Lemma index_document_encode_raises_witness :
  let all_chunks :=
    [{| text := lit "hello"; meta := Demo.meta_of (lit "a.md") |}] in
  read_parts (Collaborators := Scripted.failing_encoder) (lit "a.md")
  = Scripted.one_part (lit "hello")
  /\ split_all 0 default_config
       [_build_chunk (lit "a.md") (lit "a.md")
          {| part_text := lit "hello"; part_page := 0; part_extra := [] |}]
     = Some all_chunks
  /\ encode (Collaborators := Scripted.failing_encoder) (List.map text all_chunks)
     = Raises (lit "model not found")
  /\ index_document (C := Scripted.failing_encoder)
       0 (Returns default_config) (lit "a.md") None [lit "b00a1cca_0"]
     = (Returns {| success := false; chunks := 0;
                   message := lit "索引失敗：" ++ lit "model not found" |},
        [lit "b00a1cca_0"]).
Proof.
  intros all_chunks.
  split; [reflexivity|]. split; [vm_compute; reflexivity|].
  split; [reflexivity|].
  apply (index_document_encode_raises (C := Scripted.failing_encoder)
           0%nat default_config (lit "a.md") None [lit "b00a1cca_0"]
           [{| part_text := lit "hello"; part_page := 0; part_extra := [] |}]
           all_chunks);
    [reflexivity | reflexivity | vm_compute; reflexivity | discriminate
    | reflexivity | reflexivity].
Defined.

(** C4: two exceptions are not turned into the failure result.  One
    raised by the statements before the [try] reaches the caller.  And
    when the store raises while [delete_document] lists the records of
    the prior generation, [delete_document] catches it and answers a
    failure that [index_document] does not look at: the run goes on, adds
    the new generation to the store that still holds the old one, and
    reports a success. *)
Theorem index_document_failures_unreported {Store Embedding : Type}
  {C : Collaborators Store Embedding} fuel cfg file_path cb (st : Store) :
  (forall e,
     index_document fuel (Raises e) file_path cb st = (Raises e, st))
  /\ (forall parts all_chunks embeddings ids st1 e,
        callback_returns cb (loading_message file_path) ->
        read_parts file_path = Returns parts ->
        split_all fuel cfg
          (List.map (_build_chunk (path_name file_path) file_path) parts)
        = Some all_chunks ->
        all_chunks <> [] ->
        callback_returns cb (embedding_message (length all_chunks)) ->
        encode (List.map text all_chunks) = Returns embeddings ->
        coll_get st = Raises e ->
        coll_open st = Returns tt ->
        map_outcome (_get_doc_id file_path) (range (length all_chunks))
        = Returns ids ->
        coll_add ids embeddings (List.map text all_chunks)
          (List.map meta all_chunks) st = Returns st1 ->
        delete_document file_path st
        = (Returns {| d_success := false; deleted := 0;
                      d_message := lit "刪除失敗：" ++ e |}, st)
        /\ index_document fuel (Returns cfg) file_path cb st
           = (Returns {| success := true;
                         chunks := Z.of_nat (length all_chunks);
                         message := lit "成功索引 "
                           ++ str_of_int (Z.of_nat (length all_chunks))
                           ++ lit " 個片段" |}, st1)).
Proof.
  split; [intros e; reflexivity|].
  intros parts all_chunks embeddings ids st1 e Hcb Hparts Hsplit Hne Hcb2
    Henc Hget Hopen Hids Hadd.
  assert (Hdel : delete_document file_path st
                 = (Returns {| d_success := false; deleted := 0;
                               d_message := lit "刪除失敗：" ++ e |}, st)).
  { unfold delete_document, try_except, bind, reading. rewrite Hget. reflexivity. }
  split; [exact Hdel|].
  rewrite index_document_config. unfold try_except.
  rewrite (index_body_split _ _ _ _ _ _ Hcb Hparts), Hsplit.
  unfold of_fuel, bind at 1, ret at 1.
  rewrite (index_chunks_encoded _ _ _ _ _ Hne Hcb2 Henc).
  unfold replace_generation. cbv zeta. unfold bind at 1. rewrite Hdel.
  unfold bind at 1, reading at 1. rewrite Hopen.
  unfold bind at 1, call at 1. rewrite Hids.
  unfold bind at 1, updating at 1. rewrite Hadd. reflexivity.
Qed.

Lemma index_document_failures_unreported_witness :
  coll_get (Collaborators := Scripted.failing_get) [] = Raises (lit "boom")
  /\ delete_document (C := Scripted.failing_get) (lit "a.md") []
     = (Returns {| d_success := false; deleted := 0;
                   d_message := lit "刪除失敗：boom" |}, [])
  /\ index_document (C := Scripted.failing_get)
       0 (Returns default_config) (lit "a.md") None []
     = (Returns {| success := true; chunks := 1;
                   message := lit "成功索引 1 個片段" |},
        [lit "b00a1cca_0"])
  /\ index_document (C := Scripted.failing_get)
       0 (Raises (lit "'chunking'")) (lit "a.md") None []
     = (Raises (lit "'chunking'"), []).
Proof.
  destruct (index_document_failures_unreported (C := Scripted.failing_get)
              0%nat default_config (lit "a.md") None []) as [Hpre Hrun].
  destruct (Hrun [{| part_text := lit "hello"; part_page := 0; part_extra := [] |}]
              [{| text := lit "hello"; meta := Demo.meta_of (lit "a.md") |}]
              [tt] [lit "b00a1cca_0"] [lit "b00a1cca_0"] (lit "boom"))
    as [Hdel Hidx];
    [reflexivity | reflexivity | vm_compute; reflexivity | discriminate
    | reflexivity | reflexivity | reflexivity | reflexivity
    | vm_compute; reflexivity | reflexivity |].
  split; [reflexivity|]. split; [exact Hdel|]. split; [exact Hidx|].
  apply Hpre.
Defined.

(** A raise of the loader, inside the [try], is turned into the failure
    result. *)
Example index_document_loader_raises :
  index_document (C := Scripted.failing_loader)
    0 (Returns default_config) (lit "a.exe") None [lit "kept"]
  = (Returns {| success := false; chunks := 0;
                message := lit "索引失敗：" ++ lit "unsupported format" |},
     [lit "kept"]).
Proof.
  destruct (index_document_catches (C := Scripted.failing_loader)
              0%nat default_config (lit "a.exe") None [lit "kept"])
    as (_ & _ & Hload).
  apply Hload; reflexivity.
Qed.

(** ** The query engine *)

Section QueryFacts.
Context {Store Embedding : Type} {C : Collaborators Store Embedding}.




End QueryFacts.




(** ** Re-indexing on the reference collection *)

Import RefStore.

Section ReferenceFacts.
Context {Embedding : Type}.
Variables (policy : existing_policy) (name : pystr -> pystr)
  (parts : pystr -> outcome (list part))
  (enc : list pystr -> outcome (list Embedding))
  (nearest : list Embedding -> Z -> gmap pystr (entry Embedding) ->
             outcome (list hit)).

#[local] Instance Ref : Collaborators (gmap pystr (entry Embedding)) Embedding :=
  reference policy name parts enc nearest.

Implicit Types (m st : gmap pystr (entry Embedding)).

Lemma lookup_survivors file_path m k :
  survivors file_path (name file_path) m !! k
  = match m !! k with
    | Some e =>
        if matches file_path (name file_path) (e_metadata e) then None else Some e
    | None => None
    end.
Proof.
  unfold survivors. destruct (m !! k) as [e|] eqn:Hk.
  - destruct (matches file_path (name file_path) (e_metadata e)) eqn:Hm.
    + apply map_lookup_filter_None. right. intros x Hx. simpl. congruence.
    + apply map_lookup_filter_Some. split; [exact Hk | exact Hm].
  - apply map_lookup_filter_None. left. exact Hk.
Qed.

Lemma lookup_union_first (m1 m2 : gmap pystr (entry Embedding)) k :
  (m1 ∪ m2) !! k = match m1 !! k with Some e => Some e | None => m2 !! k end.
Proof.
  rewrite lookup_union. destruct (m1 !! k), (m2 !! k); reflexivity.
Qed.

Lemma lookup_deleted (ids : list pystr) m k :
  fold_right (fun id acc => delete id acc) m ids !! k
  = if bool_decide (k ∈ ids) then None else m !! k.
Proof.
  induction ids as [|i ids IH]; cbn [fold_right].
  - case_bool_decide as H; [|reflexivity]. by apply not_elem_of_nil in H.
  - destruct (decide (i = k)) as [->|Hne].
    + clear IH. rewrite lookup_delete_eq. case_bool_decide as H; [reflexivity|].
      exfalso. apply H. left.
    + rewrite lookup_delete_ne, IH by exact Hne.
      rewrite (bool_decide_ext (k ∈ i :: ids) (k ∈ ids)); [reflexivity|].
      rewrite elem_of_cons. split; [intros [?|?]; [congruence | assumption] | auto].
Qed.

(** The ids [delete_document] collects are those of the matching records. *)
Lemma elem_of_ids_to_delete file_path m k :
  k ∈ ids_to_delete file_path
        (List.map (fun kv => (fst kv, e_metadata (snd kv))) (map_to_list m))
  <-> exists e, m !! k = Some e
                /\ matches file_path (name file_path) (e_metadata e) = true.
Proof.
  unfold ids_to_delete. rewrite list_elem_of_In, in_map_iff. split.
  - intros ([k' md] & <- & Hin). apply filter_In in Hin as [Hin Hm].
    apply in_map_iff in Hin as ([k'' e] & [= <- <-] & Hin).
    apply list_elem_of_In, elem_of_map_to_list in Hin. eauto.
  - intros (e & Hk & Hm). exists (k, e_metadata e). split; [reflexivity|].
    apply filter_In. split; [|exact Hm].
    apply in_map_iff. exists (k, e). split; [reflexivity|].
    apply list_elem_of_In, elem_of_map_to_list. exact Hk.
Qed.

Lemma deleted_survivors file_path m :
  fold_right (fun id acc => delete id acc) m
    (ids_to_delete file_path
       (List.map (fun kv => (fst kv, e_metadata (snd kv))) (map_to_list m)))
  = survivors file_path (name file_path) m.
Proof.
  apply map_eq. intros k. rewrite lookup_deleted, lookup_survivors.
  destruct (m !! k) as [e|] eqn:Hk.
  - destruct (matches file_path (name file_path) (e_metadata e)) eqn:Hm.
    + rewrite bool_decide_eq_true_2; [reflexivity|].
      apply elem_of_ids_to_delete. eauto.
    + rewrite bool_decide_eq_false_2; [reflexivity|].
      rewrite elem_of_ids_to_delete. intros (e' & He' & Hm'). congruence.
  - destruct (bool_decide _); reflexivity.
Qed.

(** On the reference collection [delete_document] returns and leaves the
    records that do not match. *)
Lemma delete_document_reference file_path st :
  exists dr, delete_document file_path st
             = (Returns dr, survivors file_path (name file_path) st).
Proof.
  unfold delete_document, try_except, bind, reading, updating, ret. simpl.
  pose proof (deleted_survivors file_path st) as Hdel.
  simpl in Hdel |- *.
  destruct (ids_to_delete file_path _) as [|i ids] eqn:Hids.
  - simpl in Hdel. rewrite <- Hdel. eauto.
  - unfold ref_delete. rewrite <- Hdel. eauto.
Qed.

(** The records of a batch carry the ids and the metadatas handed in. *)
Lemma elem_of_batch ids embeddings documents metadatas k (e : entry Embedding) :
  (k, e) ∈ batch ids embeddings documents metadatas ->
  k ∈ ids /\ e_metadata e ∈ metadatas.
Proof.
  revert embeddings documents metadatas.
  induction ids as [|i ids IH]; intros [|x xs] [|d ds] [|md mds]; cbn [batch];
    try (intros H; by apply not_elem_of_nil in H).
  rewrite elem_of_cons. intros [[= -> ->]|Hin].
  - split; left.
  - destruct (IH _ _ _ Hin). split; right; assumption.
Qed.

Section Batch.
Variables (file_path : pystr) (new : gmap pystr (entry Embedding)).
Hypothesis new_matches : forall k e,
  new !! k = Some e -> matches file_path (name file_path) (e_metadata e) = true.

Abbreviation kept := (survivors file_path (name file_path)).

Lemma kept_kept st : kept (kept st) = kept st.
Proof.
  apply map_eq. intros k. rewrite !lookup_survivors.
  destruct (st !! k) as [e|]; [|reflexivity].
  destruct (matches file_path (name file_path) (e_metadata e)) eqn:Hm;
    [reflexivity | rewrite Hm; reflexivity].
Qed.

(** Added after the survivors and deleted again, the batch is gone. *)
Lemma kept_union_new st : kept (kept st ∪ new) = kept st.
Proof.
  apply map_eq. intros k. rewrite lookup_survivors, lookup_union_first, lookup_survivors.
  destruct (st !! k) as [e|].
  - destruct (matches file_path (name file_path) (e_metadata e)) eqn:Hm.
    + destruct (new !! k) as [e'|] eqn:Hn; [|reflexivity].
      rewrite (new_matches _ _ Hn). reflexivity.
    + rewrite Hm. reflexivity.
  - destruct (new !! k) as [e'|] eqn:Hn; [|reflexivity].
    rewrite (new_matches _ _ Hn). reflexivity.
Qed.

(** Overwriting the survivors twice is overwriting them once. *)
Lemma new_union_kept st : new ∪ kept (new ∪ kept st) = new ∪ kept st.
Proof.
  apply map_eq. intros k.
  rewrite !lookup_union_first, lookup_survivors, lookup_union_first, lookup_survivors.
  destruct (new !! k) as [e'|] eqn:Hn; [reflexivity|].
  destruct (st !! k) as [e|]; [|reflexivity].
  destruct (matches file_path (name file_path) (e_metadata e)) eqn:Hm;
    [reflexivity | rewrite Hm; reflexivity].
Qed.

End Batch.

(** Adding a batch of matching records to the survivors, deleting and
    adding again gives the same collection; a batch that is refused is
    refused again. *)
Lemma add_delete_add file_path ids embeddings documents metadatas st :
  Forall (fun md => matches file_path (name file_path) md = true) metadatas ->
  let kept := survivors file_path (name file_path) in
  match ref_add policy ids embeddings documents metadatas (kept st) with
  | Returns m1 =>
      ref_add policy ids embeddings documents metadatas (kept m1) = Returns m1
  | _ => True
  end.
Proof.
  intros Hmd kept. unfold ref_add.
  case_bool_decide as Hvalid; [|exact I].
  set (new := list_to_map (batch ids embeddings documents metadatas)
              : gmap pystr (entry Embedding)).
  assert (Hnew : forall k e, new !! k = Some e ->
                   matches file_path (name file_path) (e_metadata e) = true).
  { intros k e Hk. apply elem_of_list_to_map_2, elem_of_batch in Hk as [_ Hin].
    rewrite Forall_forall in Hmd. apply Hmd. exact Hin. }
  destruct policy.
  - unfold kept. rewrite (kept_union_new file_path new Hnew). reflexivity.
  - unfold kept. rewrite (new_union_kept file_path new). reflexivity.
  - case_bool_decide as Hdisj; [|exact I].
    unfold kept. rewrite (kept_union_new file_path new Hnew).
    rewrite bool_decide_eq_true_2 by exact Hdisj. reflexivity.
Qed.

(** On the reference collection, the run from the embeddings on. *)
Lemma store_chunks_reference file_path all_chunks embeddings st :
  let kept := survivors file_path (name file_path) st in
  store_chunks file_path all_chunks embeddings st
  = match map_outcome (_get_doc_id file_path) (range (length all_chunks)) with
    | Returns ids =>
        match ref_add policy ids embeddings (List.map text all_chunks)
                (List.map meta all_chunks) kept with
        | Returns m1 =>
            (Returns {| success := true; chunks := Z.of_nat (length all_chunks);
                        message := lit "成功索引 "
                                   ++ str_of_int (Z.of_nat (length all_chunks))
                                   ++ lit " 個片段" |}, m1)
        | Raises e => (Returns (index_failure e), kept)
        | Diverges => (Diverges, kept)
        end
    | Raises e => (Returns (index_failure e), kept)
    | Diverges => (Diverges, kept)
    end.
Proof.
  intros kept. unfold store_chunks, try_except, replace_generation. cbv zeta.
  destruct (delete_document_reference file_path st) as [dr Hdel].
  unfold bind at 1. rewrite Hdel. fold kept.
  unfold bind at 1, reading at 1. cbn [coll_open Ref reference].
  unfold bind at 1, call at 1.
  destruct (map_outcome (_get_doc_id file_path) (range (length all_chunks)))
    as [ids|e|]; [|reflexivity..].
  unfold bind at 1, updating at 1. cbn [coll_add Ref reference].
  destruct (ref_add policy ids embeddings _ _ kept); reflexivity.
Qed.

Lemma store_chunks_idempotent file_path all_chunks embeddings st :
  Forall (fun c => matches file_path (name file_path) (meta c) = true) all_chunks ->
  let run := store_chunks file_path all_chunks embeddings in
  run (snd (run st)) = run st.
Proof.
  intros Hall run. unfold run. rewrite !store_chunks_reference.
  destruct (map_outcome (_get_doc_id file_path) (range (length all_chunks)))
    as [ids|e|]; cbn [snd]; [|rewrite (kept_kept file_path); reflexivity..].
  pose proof (add_delete_add file_path ids embeddings (List.map text all_chunks)
                (List.map meta all_chunks) st
                ltac:(apply Forall_map; exact Hall)) as Hadd.
  cbv zeta in Hadd.
  destruct (ref_add policy ids embeddings _ _ (survivors file_path (name file_path) st))
    as [m1|e|] eqn:H1; cbn [snd].
  - rewrite Hadd. reflexivity.
  - rewrite (kept_kept file_path), H1. reflexivity.
  - rewrite (kept_kept file_path), H1. reflexivity.
Qed.

(** A record of the collection after [add] was there before or comes
    from the batch. *)
Lemma ref_add_lookup ids embeddings documents metadatas m0 m1 k e :
  ref_add policy ids embeddings documents metadatas m0 = Returns m1 ->
  m1 !! k = Some e ->
  m0 !! k = Some e \/ (k ∈ ids /\ e_metadata e ∈ metadatas).
Proof.
  unfold ref_add. case_bool_decide as Hvalid; [|discriminate]. cbv zeta.
  set (new := list_to_map (batch ids embeddings documents metadatas)).
  assert (Hnew : forall k e, new !! k = Some e ->
                   k ∈ ids /\ e_metadata e ∈ metadatas).
  { intros k' e' Hk. by apply elem_of_list_to_map_2, elem_of_batch in Hk. }
  destruct policy; [| |case_bool_decide; [|discriminate]];
    intros [= <-]; rewrite lookup_union_first;
    destruct (m0 !! k) eqn:H0; destruct (new !! k) eqn:Hb;
    intros [= <-]; eauto.
Qed.

End ReferenceFacts.

(** C2: indexing a path again with the same document leaves the
    collection exactly as the first run left it, so the ids stored and
    the number of chunks stored for the source are the same, and the run
    answers the same; after a successful run every record stored for the
    source carries an id of that run, the one [_get_doc_id file_path i]
    returns for an [i] with [0 <= i < chunks], and the ids of a run are
    pairwise distinct.  This holds whatever [add] does with an id that
    exists already. *)
Theorem reindex_idempotent {Embedding : Type} (policy : existing_policy)
  (name : pystr -> pystr) (parts : pystr -> outcome (list part))
  (enc : list pystr -> outcome (list Embedding))
  (nearest : list Embedding -> Z -> gmap pystr (entry Embedding) ->
             outcome (list hit))
  (fuel : nat) (prelude : outcome config) (file_path : pystr)
  (cb : option (pystr -> outcome unit)) (st : gmap pystr (entry Embedding)) :
  let run := index_document (C := reference policy name parts enc nearest)
               fuel prelude file_path cb in
  run (snd (run st)) = run st
  /\ dom (snd (run (snd (run st)))) = dom (snd (run st))
  /\ size (of_source file_path (snd (run (snd (run st)))))
     = size (of_source file_path (snd (run st)))
  /\ (forall res, fst (run st) = Returns res -> success res = true ->
        forall id e,
          snd (run st) !! id = Some e ->
          e_metadata e !! lit "source" = Some (PStr file_path) ->
          exists i, 0 <= i < chunks res
                    /\ _get_doc_id file_path i = Returns id)
  /\ (forall n ids,
        map_outcome (_get_doc_id file_path) (range n) = Returns ids ->
        NoDup ids).
Proof.
  intros run.
  assert (Hidem : run (snd (run st)) = run st).
  { unfold run.
    destruct (index_document_prefix (C := reference policy name parts enc nearest)
                fuel prelude file_path cb)
      as [(o & _ & Ho)|(all_chunks & embeddings & _ & Hall & Hrun)].
    - rewrite !Ho. reflexivity.
    - rewrite !Hrun.
      apply (store_chunks_idempotent policy name parts enc nearest).
      eapply Forall_impl; [exact Hall|]. intros c. apply built_for_matches. }
  split; [exact Hidem|]. rewrite Hidem. split; [reflexivity|]. split; [reflexivity|].
  split; [|intros n ids; apply generation_ids_NoDup].
  intros res Hres Hsucc id e Hid Hsrc. unfold run in *.
  destruct (index_document_prefix (C := reference policy name parts enc nearest)
              fuel prelude file_path cb)
    as [(o & Hfalse & Ho)|(all_chunks & embeddings & _ & Hall & Hrun)].
  - rewrite Ho in Hres. cbn [fst] in Hres. rewrite (Hfalse _ Hres) in Hsucc.
    discriminate.
  - rewrite Hrun in Hres, Hid.
    rewrite (store_chunks_reference policy name parts enc nearest) in Hres, Hid.
    destruct (map_outcome (_get_doc_id file_path) (range (length all_chunks)))
      as [ids|e'|] eqn:Hids; cbn [fst snd] in Hres, Hid; try discriminate.
    2: { injection Hres as <-. discriminate. }
    destruct (ref_add policy ids embeddings _ _ _) as [m1|e'|] eqn:Hadd;
      cbn [fst snd] in Hres, Hid; try discriminate.
    2: { injection Hres as <-. discriminate. }
    injection Hres as <-. cbn [chunks].
    destruct (ref_add_lookup _ _ _ _ _ _ _ _ _ Hadd Hid) as [Hold|[Hin _]].
    + rewrite lookup_survivors in Hold.
      destruct (st !! id) as [e0|]; [|discriminate].
      destruct (matches file_path (name file_path) (e_metadata e0)) eqn:Hm;
        [discriminate|]. injection Hold as ->.
      unfold matches in Hm. rewrite bool_decide_eq_true_2 in Hm by exact Hsrc.
      discriminate.
    + apply (elem_of_generation_ids _ _ _ _ Hids). exact Hin.
Qed.

Lemma reindex_idempotent_witness :
  let run := index_document (C := Demo.demo Ignore (lit "hello"))
               0 (Returns default_config) (lit "a.md") None in
  run Demo.old_store
  = (Returns {| success := true; chunks := 1;
                message := lit "成功索引 1 個片段" |}, Demo.new_store)
  /\ run (snd (run Demo.old_store)) = run Demo.old_store
  /\ forall id e,
       snd (run Demo.old_store) !! id = Some e ->
       e_metadata e !! lit "source" = Some (PStr (lit "a.md")) ->
       exists i, 0 <= i < 1 /\ _get_doc_id (lit "a.md") i = Returns id.
Proof.
  intros run.
  assert (Hrun : run Demo.old_store
                 = (Returns {| success := true; chunks := 1;
                               message := lit "成功索引 1 個片段" |},
                    Demo.new_store)) by (vm_compute; reflexivity).
  destruct (reindex_idempotent Ignore (fun p => p)
              (fun _ => Scripted.one_part (lit "hello")) Scripted.encode_ok
              (fun _ _ _ => Returns []) 0%nat (Returns default_config)
              (lit "a.md") None Demo.old_store) as (Hidem & _ & _ & Hids & _).
  split; [exact Hrun|]. split; [exact Hidem|].
  apply (Hids {| success := true; chunks := 1;
                 message := lit "成功索引 1 個片段" |});
    [exact (f_equal fst Hrun) | reflexivity].
Defined.

(** The three ways of [add] agree on the run above: the old generation of
    [a.md] is gone, [b.md] is untouched. *)
Example reindex_replaces_generation (policy : existing_policy) :
  snd (index_document (C := Demo.demo policy (lit "hello"))
         0 (Returns default_config) (lit "a.md") None Demo.old_store)
  = Demo.new_store.
Proof. destruct policy; vm_compute; reflexivity. Qed.

(** Counting the chunks of a source before and after. *)
Example reindex_counts :
  size (of_source (lit "a.md") Demo.old_store) = 2%nat
  /\ size (of_source (lit "a.md") Demo.new_store) = 1%nat
  /\ size (of_source (lit "b.md") Demo.new_store) = 1%nat.
Proof. vm_compute. repeat split; reflexivity. Qed.

(** With an id of the batch already held by another source, the three
    ways of [add] differ, and each is stable under a second run. *)
Example reindex_collision :
  let clash : gmap pystr (entry unit) :=
    <[lit "b00a1cca_0" := Entry tt (lit "other") (Demo.meta_of (lit "b.md"))]> ∅ in
  let run policy :=
    index_document (C := Demo.demo policy (lit "hello"))
      0 (Returns default_config) (lit "a.md") None in
  snd (run Ignore clash) = clash
  /\ snd (run Overwrite clash)
     = <[lit "b00a1cca_0" := Entry tt (lit "hello") (Demo.meta_of (lit "a.md"))]> ∅
  /\ run Reject clash
     = (Returns {| success := false; chunks := 0;
                   message := lit "索引失敗：ID already exists" |}, clash).
Proof. vm_compute. repeat split; reflexivity. Qed.

(** On a path with a lone surrogate the ids cannot be computed: the run
    fails after the deletion, the generation of the path is gone, and a
    second run answers and leaves the same. *)
Example reindex_surrogate :
  let path : pystr := [97; 56448; 98]%N in
  let held : gmap pystr (entry unit) :=
    <[lit "ffffffff_0" := Entry tt (lit "old") (Demo.meta_of path)]> ∅ in
  let run := index_document (C := Demo.demo Ignore (lit "hello"))
               0 (Returns default_config) path None in
  run held
  = (Returns {| success := false; chunks := 0;
                message := lit "索引失敗：'utf-8' codec can't encode character '\udc80' in position 1: surrogates not allowed" |}, ∅)
  /\ run (snd (run held)) = run held.
Proof. vm_compute. split; reflexivity. Qed.

(** * Further properties *)

(** ** The chunker, continued *)

Section ChunkerMore.
Variables (text : pystr) (cs co : Z).

Lemma lstrip_length (s : pystr) : (length (lstrip s) <= length s)%nat.
Proof.
  induction s as [|c s IH]; simpl; [lia|]. destruct (isspace c); simpl; lia.
Qed.

Lemma len_strip_le (s : pystr) : len (strip s) <= len s.
Proof.
  unfold len, strip, rstrip. rewrite length_rev.
  pose proof (lstrip_length (rev (lstrip s))) as H1.
  rewrite length_rev in H1. pose proof (lstrip_length s). lia.
Qed.

(** A window holds at most [chunk_size] characters. *)
Lemma len_window_le (start : Z) : 0 <= cs -> len (window text cs start) <= cs.
Proof.
  intros Hcs. unfold window.
  assert (Hslice : len (slice text start (start + cs)) <= cs).
  { rewrite len_slice. pose proof (len_nonneg text). unfold clamp_index.
    destruct (Z.ltb_spec start 0), (Z.ltb_spec (start + cs) 0); lia. }
  destruct (start + cs <? len text); [|exact Hslice].
  pose proof (len_snap_le cs separators (slice text start (start + cs))). lia.
Qed.

(** What the loop returns: the chunks appended so far and stripped
    windows. *)
Lemma split_loop_chunks (P : pystr -> Prop) (fuel : nat) (s : split_state)
  (r : list pystr) :
  (forall start, P (strip (window text cs start))) ->
  Forall P (st_chunks s) ->
  split_loop fuel text cs co s = Some r ->
  Forall P r.
Proof.
  intros HP. revert s. induction fuel as [|fuel IH]; intros s Hs; simpl;
    destruct (st_start s <? len text); intros Hr.
  - discriminate.
  - injection Hr as <-. exact Hs.
  - revert Hr. apply IH. simpl. apply Forall_app. split; [exact Hs|].
    constructor; [apply HP | constructor].
  - injection Hr as <-. exact Hs.
Qed.

Lemma filter_Forall {A} (P : A -> Prop) (f : A -> bool) (l : list A) :
  Forall P l -> Forall P (List.filter f l).
Proof.
  rewrite !List.Forall_forall. intros H x Hx. apply filter_In in Hx as [Hx _]. auto.
Qed.

Lemma split_text_bounded_aux :
  0 < cs ->
  (forall fuel r,
     _split_text fuel text cs co = Some r -> Forall (fun c => len c <= cs) r)
  /\ (co <= 0 -> exists r, _split_text (Z.to_nat (len text)) text cs co = Some r).
Proof.
  intros Hcs. unfold _split_text.
  destruct (Z.leb_spec (len text) cs) as [Hshort|Hlong].
  - split; [|eauto]. intros fuel r [= <-]. constructor; [exact Hshort | constructor].
  - split.
    + intros fuel r.
      destruct (split_loop fuel text cs co _) as [chunks|] eqn:Hloop; [|discriminate].
      intros [= <-]. apply filter_Forall.
      refine (split_loop_chunks _ fuel _ _ _ _ Hloop); [|constructor].
      intros start. pose proof (len_strip_le (window text cs start)).
      pose proof (len_window_le start ltac:(lia)). lia.
    + intros Hco.
      destruct (split_loop_returns text cs co (Z.to_nat (len text))
                  {| st_start := 0; st_chunks := [] |}) as [r Hr];
        [lia | lia | simpl; lia | simpl; lia |].
      rewrite Hr. eauto.
Qed.

(** A window that does not reach the end of the text holds more than
    [chunk_size // 2] characters. *)
Lemma len_window_inner (start : Z) :
  0 < cs -> 0 <= start -> start + cs < len text ->
  cs / 2 < len (window text cs start) <= cs.
Proof.
  intros Hcs Hstart Hend. split; [|apply len_window_le; lia].
  unfold window. destruct (Z.ltb_spec (start + cs) (len text)); [|lia].
  set (chunk := slice text start (start + cs)).
  assert (Hchunk : len chunk = cs).
  { unfold chunk. rewrite len_slice. unfold clamp_index.
    destruct (Z.ltb_spec start 0), (Z.ltb_spec (start + cs) 0); lia. }
  assert (Hhalf : cs / 2 < cs) by (apply Z.div_lt; lia).
  assert (H0 : 0 <= cs / 2) by (apply Z.div_pos; lia).
  induction separators as [|sep seps IH]; simpl; [lia|].
  destruct (Z.ltb_spec (cs / 2) (rfind chunk sep)) as [Hsep|]; [|exact IH].
  unfold slice_to. rewrite len_slice. unfold clamp_index. simpl.
  destruct (Z.ltb_spec (rfind chunk sep + 1) 0); lia.
Qed.

(** A window is a segment of the text that starts at [start]. *)
Lemma window_segment (start : Z) :
  0 <= start < len text ->
  exists n, window text cs start = firstn n (skipn (Z.to_nat start) text).
Proof.
  intros Hstart. unfold window.
  assert (Hslice : exists n, slice text start (start + cs)
                             = firstn n (skipn (Z.to_nat start) text)).
  { unfold slice. eexists. f_equal. f_equal. unfold clamp_index.
    destruct (Z.ltb_spec start 0); lia. }
  destruct (start + cs <? len text); [|exact Hslice].
  destruct Hslice as [n ->].
  induction separators as [|sep seps IH]; simpl; [eauto|].
  destruct (cs / 2 <? rfind _ sep); [|exact IH].
  unfold slice_to, slice. eexists.
  replace (Z.to_nat (clamp_index (len (firstn n (skipn (Z.to_nat start) text))) 0))
    with 0%nat by (unfold clamp_index; simpl; lia).
  rewrite skipn_O, take_take. reflexivity.
Qed.

Lemma take_segment {A} (l w : list A) (k n : nat) :
  (k <= length l)%nat -> w = firstn n (skipn k l) ->
  firstn (k + length w) l = firstn k l ++ w.
Proof.
  intros Hk ->. set (m := length (take n (drop k l))).
  transitivity (take (k + m) (take k l ++ drop k l));
    [rewrite take_drop; reflexivity|].
  rewrite take_app_add' by (rewrite length_take; lia).
  f_equal. unfold m. rewrite length_take.
  destruct (Nat.le_gt_cases n (length (drop k l))) as [Hle|Hgt].
  - rewrite Nat.min_l by exact Hle. reflexivity.
  - rewrite Nat.min_r by lia. rewrite !take_ge by lia. reflexivity.
Qed.

(** Without overlap the loop cuts the text into consecutive windows. *)
Lemma split_loop_tiles (fuel : nat) (s : split_state) (ws : list pystr) :
  0 < cs -> co = 0 ->
  0 <= st_start s <= len text ->
  len text - st_start s <= Z.of_nat fuel ->
  concat ws = firstn (Z.to_nat (st_start s)) text ->
  st_chunks s = List.map strip ws ->
  Forall (fun w => 1 <= len w <= cs) ws ->
  exists ws',
    concat ws' = text
    /\ Forall (fun w => 1 <= len w <= cs) ws'
    /\ split_loop fuel text cs co s = Some (List.map strip ws').
Proof.
  intros Hcs Hco. revert s ws.
  induction fuel as [|fuel IH]; intros s ws Hs Hfuel Hcat Hchunks Hws; simpl;
    destruct (Z.ltb_spec (st_start s) (len text)) as [Hlt|Hge]; try lia.
  - exists ws. rewrite Hchunks. split; [|auto].
    rewrite Hcat. apply take_ge. unfold len in *. lia.
  - pose proof (window_nonempty text cs (st_start s) Hcs ltac:(lia)) as Hne.
    pose proof (window_within text cs (st_start s) Hlt) as Hin.
    pose proof (len_window_le (st_start s) ltac:(lia)) as Hle.
    destruct (window_segment (st_start s) ltac:(lia)) as [n Hseg].
    apply (IH _ (ws ++ [window text cs (st_start s)])); simpl; try lia.
    + rewrite concat_app, Hcat. simpl. rewrite app_nil_r.
      replace (Z.to_nat (st_start s + (len (window text cs (st_start s)) - co)))
        with (Z.to_nat (st_start s) + length (window text cs (st_start s)))%nat
        by (unfold len; lia).
      symmetry. eapply take_segment; [unfold len in *; lia | exact Hseg].
    + rewrite Hchunks, map_app. reflexivity.
    + apply Forall_app. split; [exact Hws|]. constructor; [lia | constructor].
  - exists ws. rewrite Hchunks. split; [|auto].
    rewrite Hcat. apply take_ge. unfold len in *. lia.
Qed.

End ChunkerMore.

(** X1: with a positive [chunk_size], no chunk [_split_text] returns is
    longer than [chunk_size]; and it does return when there is no
    overlap. *)
Theorem split_text_chunks_bounded (text : pystr) (cs co : Z) :
  0 < cs ->
  (forall fuel r,
     _split_text fuel text cs co = Some r -> Forall (fun c => len c <= cs) r)
  /\ (co <= 0 -> exists r, _split_text (Z.to_nat (len text)) text cs co = Some r).
Proof. apply split_text_bounded_aux. Qed.

Lemma split_text_chunks_bounded_witness :
  0 < 6
  /\ _split_text 10 (lit "abcd. efgh") 6 0 = Some [lit "abcd."; lit "efgh"]
  /\ Forall (fun c => len c <= 6) [lit "abcd."; lit "efgh"].
Proof.
  split; [lia|]. split; [vm_compute; reflexivity|].
  apply (proj1 (split_text_chunks_bounded (lit "abcd. efgh") 6 0 ltac:(lia)) 10%nat).
  vm_compute. reflexivity.
Defined.

(** X2: without overlap nothing of a long text is skipped or repeated:
    the loop cuts the text into consecutive windows of 1 to [chunk_size]
    characters whose concatenation is the text, and the result is these
    windows stripped, without the blank ones. *)
Theorem split_text_tiles (text : pystr) (cs : Z) :
  0 < cs -> cs < len text ->
  exists windows,
    concat windows = text
    /\ Forall (fun w => 1 <= len w <= cs) windows
    /\ _split_text (Z.to_nat (len text)) text cs 0
       = Some (List.filter (fun c => truthy (strip c)) (List.map strip windows)).
Proof.
  intros Hcs Hlen.
  destruct (split_loop_tiles text cs 0 (Z.to_nat (len text))
              {| st_start := 0; st_chunks := [] |} [] Hcs eq_refl)
    as (ws & Hcat & Hws & Hloop);
    [simpl; lia | simpl; lia | reflexivity | reflexivity | constructor |].
  exists ws. split; [exact Hcat|]. split; [exact Hws|].
  unfold _split_text. destruct (Z.leb_spec (len text) cs); [lia|].
  rewrite Hloop. reflexivity.
Qed.

Lemma split_text_tiles_witness :
  0 < 6 /\ 6 < len (lit "abcd. efgh")
  /\ concat [lit "abcd."; lit " efgh"] = lit "abcd. efgh"
  /\ _split_text (Z.to_nat (len (lit "abcd. efgh"))) (lit "abcd. efgh") 6 0
     = Some (List.filter (fun c => truthy (strip c))
               (List.map strip [lit "abcd."; lit " efgh"]))
  /\ exists windows,
       concat windows = lit "abcd. efgh"
       /\ Forall (fun w => 1 <= len w <= 6) windows
       /\ _split_text (Z.to_nat (len (lit "abcd. efgh"))) (lit "abcd. efgh") 6 0
          = Some (List.filter (fun c => truthy (strip c)) (List.map strip windows)).
Proof.
  split; [lia|]. split; [vm_compute; reflexivity|].
  split; [reflexivity|]. split; [vm_compute; reflexivity|].
  apply split_text_tiles; [lia | vm_compute; reflexivity].
Defined.

(** X3: as long as the window does not reach the end of the text, an
    overlap of at most [chunk_size // 2] lets every iteration move
    [start] forward: the window, shortened or not, holds more than
    [chunk_size // 2] characters. *)
Theorem split_step_advances (text : pystr) (cs co : Z) (s : split_state) :
  0 < cs -> 0 <= st_start s -> st_start s + cs < len text -> co <= cs / 2 ->
  cs / 2 < len (window text cs (st_start s)) <= cs
  /\ st_start s < st_start (split_step text cs co s).
Proof.
  intros Hcs Hs Hend Hco.
  pose proof (len_window_inner text cs (st_start s) Hcs Hs Hend) as Hw.
  split; [exact Hw|]. simpl. lia.
Qed.

Lemma split_step_advances_witness :
  0 < 10 /\ 0 <= 0 /\ 0 + 10 < len (lit "abcdef. hijklmnop") /\ 5 <= 10 / 2
  /\ st_start (split_step (lit "abcdef. hijklmnop") 10 5
                 {| st_start := 0; st_chunks := [] |}) = 2
  /\ 0 < st_start (split_step (lit "abcdef. hijklmnop") 10 5
                     {| st_start := 0; st_chunks := [] |}).
Proof.
  split; [lia|]. split; [lia|]. split; [vm_compute; reflexivity|].
  split; [vm_compute; discriminate|]. split; [vm_compute; reflexivity|].
  apply (split_step_advances (lit "abcdef. hijklmnop") 10 5
           {| st_start := 0; st_chunks := [] |});
    [lia | simpl; lia | vm_compute; reflexivity | vm_compute; discriminate].
Defined.

(** ** The catalogue *)

Section CatalogueFacts.
Context {Store Embedding : Type} {C : Collaborators Store Embedding}.

Lemma chunks_of_count_chunk (s f s' : pyval) (acc : list doc_stat) :
  chunks_of s' (count_chunk s f acc)
  = chunks_of s' acc + (if decide (s = s') then 1 else 0).
Proof.
  induction acc as [|d acc IH]; simpl.
  - destruct (decide (s = s')); lia.
  - destruct (decide (ds_source d = s)) as [Hd|Hd]; simpl.
    + destruct (decide (ds_source d = s')) as [Hd'|Hd'];
        destruct (decide (s = s')); try congruence; lia.
    + destruct (decide (ds_source d = s')) as [Hd'|Hd']; [|exact IH].
      destruct (decide (s = s')); [congruence | lia].
Qed.

Lemma sum_chunks_count_chunk (s f : pyval) (acc : list doc_stat) :
  sum_chunks (count_chunk s f acc) = sum_chunks acc + 1.
Proof.
  induction acc as [|d acc IH]; simpl; [lia|].
  destruct (decide (ds_source d = s)); simpl; lia.
Qed.

Lemma sources_count_chunk (s f : pyval) (acc : list doc_stat) (x : pyval) :
  In x (List.map ds_source (count_chunk s f acc))
  <-> In x (List.map ds_source acc) \/ x = s.
Proof.
  induction acc as [|d acc IH]; simpl.
  - split; [intros [<-|[]]; auto | intros [[]| ->]; auto].
  - destruct (decide (ds_source d = s)) as [Hd|Hd]; simpl.
    + split; [tauto|]. intros [H| ->]; [exact H | left; exact Hd].
    + rewrite IH. tauto.
Qed.

Lemma NoDup_count_chunk (s f : pyval) (acc : list doc_stat) :
  List.NoDup (List.map ds_source acc) ->
  List.NoDup (List.map ds_source (count_chunk s f acc)).
Proof.
  induction acc as [|d acc IH]; simpl; intros Hnd.
  - constructor; [intros [] | constructor].
  - inversion Hnd as [|? ? Hnotin Hrest]; subst.
    destruct (decide (ds_source d = s)) as [Hd|Hd]; simpl.
    + constructor; assumption.
    + constructor; [|apply IH; exact Hrest].
      rewrite sources_count_chunk. intros [H|H]; [exact (Hnotin H) | congruence].
Qed.

Lemma positive_count_chunk (s f : pyval) (acc : list doc_stat) :
  List.Forall (fun d => 1 <= ds_chunks d) acc ->
  List.Forall (fun d => 1 <= ds_chunks d) (count_chunk s f acc).
Proof.
  induction 1 as [|d acc Hd Hacc IH]; simpl.
  - constructor; [simpl; lia | constructor].
  - destruct (decide (ds_source d = s)); constructor; simpl;
      [lia | assumption | exact Hd | exact IH].
Qed.

(** A counter of [doc_stats] is what [chunks_of] reads at its source. *)
Lemma chunks_of_In (d : doc_stat) (acc : list doc_stat) :
  List.NoDup (List.map ds_source acc) -> In d acc ->
  chunks_of (ds_source d) acc = ds_chunks d.
Proof.
  induction acc as [|d' acc IH]; simpl; [intros _ []|].
  intros Hnd [->|Hin].
  - destruct (decide (ds_source d = ds_source d)); congruence.
  - inversion Hnd as [|? ? Hnotin Hrest]; subst.
    destruct (decide (ds_source d' = ds_source d)) as [Heq|Hne]; [|auto].
    exfalso. apply Hnotin. rewrite Heq. apply in_map. exact Hin.
Qed.

Lemma length_metadatas_of_cons (s : pyval) (meta : metadata) (rest : list metadata) :
  Z.of_nat (length (metadatas_of s (meta :: rest)))
  = Z.of_nat (length (metadatas_of s rest))
    + (if decide (source_of meta = s) then 1 else 0).
Proof.
  unfold metadatas_of. simpl.
  destruct (decide (source_of meta = s)) as [H|H].
  - rewrite bool_decide_eq_true_2 by exact H. simpl. lia.
  - rewrite bool_decide_eq_false_2 by exact H. lia.
Qed.

(** What the loop of [list_documents] returns when every source is a
    string. *)
Lemma group_by_source_spec (metadatas : list metadata) (acc : list doc_stat) :
  List.Forall (fun meta => exists s, source_of meta = PStr s) metadatas ->
  List.NoDup (List.map ds_source acc) ->
  List.Forall (fun d => 1 <= ds_chunks d) acc ->
  exists docs,
    group_by_source metadatas acc = Returns docs
    /\ List.NoDup (List.map ds_source docs)
    /\ List.Forall (fun d => 1 <= ds_chunks d) docs
    /\ sum_chunks docs = sum_chunks acc + Z.of_nat (length metadatas)
    /\ (forall s, chunks_of s docs
                  = chunks_of s acc + Z.of_nat (length (metadatas_of s metadatas)))
    /\ (forall x, In x (List.map ds_source docs)
                  <-> In x (List.map ds_source acc)
                      \/ In x (List.map source_of metadatas)).
Proof.
  intros Hstr. revert acc.
  induction Hstr as [|meta rest [s Hs] _ IH]; intros acc Hnd Hpos.
  - exists acc. simpl. repeat split; auto; try lia; try tauto.
  - cbn [group_by_source]. rewrite Hs.
    destruct (IH (count_chunk (PStr s)
                    (default (PStr (path_name s)) (meta !! lit "filename")) acc)
                (NoDup_count_chunk _ _ _ Hnd) (positive_count_chunk _ _ _ Hpos))
      as (docs & Hret & Hnd' & Hpos' & Hsum & Hchunks & Hsrc).
    exists docs. split; [exact Hret|]. split; [exact Hnd'|]. split; [exact Hpos'|].
    split; [rewrite Hsum, sum_chunks_count_chunk; simpl length; lia|].
    split.
    + intros s'. rewrite Hchunks, chunks_of_count_chunk, length_metadatas_of_cons, Hs.
      lia.
    + intros x. rewrite Hsrc, sources_count_chunk. simpl. rewrite Hs.
      split; [intros [[H|H]|H] | intros [H|[H|H]]]; auto.
Qed.

(** The loop stops on the first source that is not a string. *)
Lemma group_by_source_int (metadatas : list metadata) (acc : list doc_stat) :
  List.Exists (fun meta => exists n, source_of meta = PInt n) metadatas ->
  exists e, group_by_source metadatas acc = Raises e.
Proof.
  revert acc. induction metadatas as [|meta rest IH]; intros acc Hex.
  - inversion Hex.
  - cbn [group_by_source]. destruct (source_of meta) as [s|n] eqn:Hs; [|eauto].
    apply IH. inversion Hex as [? ? [n Hn]|]; subst; [congruence | assumption].
Qed.

Lemma group_by_source_total (metadatas : list metadata) (acc : list doc_stat) :
  group_by_source metadatas acc <> Diverges.
Proof.
  revert acc. induction metadatas as [|meta rest IH]; intros acc;
    cbn [group_by_source]; [discriminate|].
  destruct (source_of meta); [apply IH | discriminate].
Qed.

Lemma list_documents_listing (st : Store) (total : Z) (rows : list (pystr * metadata)) :
  coll_count st = Returns total -> total <> 0 -> coll_get st = Returns rows ->
  list_documents st
  = match group_by_source (List.map snd rows) [] with
    | Returns docs => (Returns docs, st)
    | Raises _ => (Returns [], st)
    | Diverges => (Diverges, st)
    end.
Proof.
  intros Hcount Htotal Hget. unfold list_documents, try_except, bind, reading, call, ret.
  rewrite Hcount. destruct (Z.eqb_spec total 0); [contradiction|].
  rewrite Hget. destruct (group_by_source _ _); reflexivity.
Qed.

Lemma list_documents_store (st : Store) : snd (list_documents st) = st.
Proof.
  unfold list_documents, try_except, bind, reading, call, ret.
  destruct (coll_count st) as [total| |]; try reflexivity.
  destruct (total =? 0); [reflexivity|].
  destruct (coll_get st) as [rows| |]; try reflexivity.
  destruct (group_by_source _ _); reflexivity.
Qed.

Lemma list_documents_never_raises (st : Store) e st' :
  list_documents st <> (Raises e, st').
Proof.
  unfold list_documents, try_except, bind, reading, call, ret.
  destruct (coll_count st) as [total| |]; try discriminate.
  destruct (total =? 0); [discriminate|].
  destruct (coll_get st) as [rows| |]; try discriminate.
  destruct (group_by_source _ _); discriminate.
Qed.

Lemma list_documents_get_raises (st : Store) (total : Z) (e : pystr) :
  coll_count st = Returns total -> coll_get st = Raises e ->
  list_documents st = (Returns [], st).
Proof.
  intros Hc Hg. unfold list_documents, try_except, bind, reading, call, ret.
  rewrite Hc. destruct (total =? 0); [reflexivity|]. rewrite Hg. reflexivity.
Qed.

End CatalogueFacts.

(** X4: when every stored source is a string, [list_documents] returns
    one entry per distinct source, in the order of first occurrence; the
    [chunks] of an entry is the number of stored metadatas of its source,
    at least 1, and the counters add up to the number of records. *)
Theorem list_documents_groups {Store Embedding : Type}
  {C : Collaborators Store Embedding} (st : Store) (total : Z)
  (rows : list (pystr * metadata)) :
  coll_count st = Returns total -> total <> 0 -> coll_get st = Returns rows ->
  List.Forall (fun row => exists s, source_of (snd row) = PStr s) rows ->
  exists docs,
    list_documents st = (Returns docs, st)
    /\ List.NoDup (List.map ds_source docs)
    /\ (forall d, In d docs ->
          1 <= ds_chunks d
          /\ ds_chunks d
             = Z.of_nat (length (metadatas_of (ds_source d) (List.map snd rows))))
    /\ (forall row, In row rows ->
          In (source_of (snd row)) (List.map ds_source docs))
    /\ sum_chunks docs = Z.of_nat (length rows).
Proof.
  intros Hcount Htotal Hget Hstr.
  destruct (group_by_source_spec (List.map snd rows) [])
    as (docs & Hret & Hnd & Hpos & Hsum & Hchunks & Hsrc);
    [apply List.Forall_map; exact Hstr | constructor | constructor |].
  exists docs. rewrite (list_documents_listing st total rows Hcount Htotal Hget), Hret.
  split; [reflexivity|]. split; [exact Hnd|]. split; [|split].
  - intros d Hd. rewrite List.Forall_forall in Hpos. split; [auto|].
    rewrite <- (chunks_of_In d docs Hnd Hd), Hchunks. simpl. lia.
  - intros row Hrow. apply Hsrc. right. apply in_map_iff. exists (snd row).
    split; [reflexivity | apply in_map; exact Hrow].
  - rewrite Hsum, length_map. simpl. lia.
Qed.

Lemma list_documents_groups_witness :
  let C := Demo.demo Ignore (lit "hello") in
  coll_count (Collaborators := C) Demo.old_store = Returns 3
  /\ 3 <> 0
  /\ (exists rows,
        coll_get (Collaborators := C) Demo.old_store = Returns rows
        /\ List.Forall (fun row => exists s, source_of (snd row) = PStr s) rows
        /\ exists docs,
            list_documents (C := C) Demo.old_store = (Returns docs, Demo.old_store)
            /\ List.NoDup (List.map ds_source docs)
            /\ sum_chunks docs = Z.of_nat (length rows)).
Proof.
  intro C. split; [vm_compute; reflexivity|]. split; [lia|].
  eexists. split; [vm_compute; reflexivity|].
  assert (Hstr : List.Forall (fun row : pystr * metadata => exists s, source_of (snd row) = PStr s)
            (List.map (fun kv => (fst kv, e_metadata (snd kv))) (map_to_list Demo.old_store))).
  { vm_compute. repeat constructor; eexists; reflexivity. }
  vm_compute in Hstr.
  split; [exact Hstr|].
  destruct (list_documents_groups (C := C) Demo.old_store 3 _
              ltac:(vm_compute; reflexivity) ltac:(lia) ltac:(vm_compute; reflexivity) Hstr)
    as (docs & Hrun & Hnd & _ & _ & Hsum).
  exists docs. auto.
Defined.

(** X5: [list_documents] never raises and never changes the store; it
    answers the empty list when the collection is empty and also when
    [count] or [get] raises or when a stored source is not a string, so
    that a failed listing cannot be told from an empty collection. *)
Theorem list_documents_soft_fail {Store Embedding : Type}
  {C : Collaborators Store Embedding} (st : Store) :
  (forall e st', list_documents st <> (Raises e, st'))
  /\ snd (list_documents st) = st
  /\ (forall e, coll_count st = Raises e -> list_documents st = (Returns [], st))
  /\ (coll_count st = Returns 0 -> list_documents st = (Returns [], st))
  /\ (forall total e,
        coll_count st = Returns total -> coll_get st = Raises e ->
        list_documents st = (Returns [], st))
  /\ (forall total rows,
        coll_count st = Returns total -> coll_get st = Returns rows ->
        List.Exists (fun row => exists n, source_of (snd row) = PInt n) rows ->
        list_documents st = (Returns [], st)).
Proof.
  split; [intros e st'; apply list_documents_never_raises|].
  split; [apply list_documents_store|].
  split; [intros e Hc; unfold list_documents, try_except, bind, reading;
          rewrite Hc; reflexivity|].
  split; [intros Hc; unfold list_documents, try_except, bind, reading;
          rewrite Hc; reflexivity|].
  split; [apply list_documents_get_raises|].
  intros total rows Hc Hg Hex.
  destruct (Z.eq_dec total 0) as [->|Hne].
  { unfold list_documents, try_except, bind, reading. rewrite Hc. reflexivity. }
  rewrite (list_documents_listing st total rows Hc Hne Hg).
  destruct (group_by_source_int (List.map snd rows) []) as [e ->]; [|reflexivity].
  apply List.Exists_exists in Hex as (row & Hin & Hn).
  apply List.Exists_exists. exists (snd row). split; [apply in_map; exact Hin | exact Hn].
Qed.

(** X6: [get_stats] never raises and never changes the store; it
    reports an error when [count] or the read of the configuration
    raises, and only then; when the listing fails it still reports the
    count of chunks, with 0 documents. *)
Theorem get_stats_reports {Store Embedding : Type}
  {C : Collaborators Store Embedding} (config_read : outcome (pystr * config))
  (st : Store) :
  (forall e st', get_stats config_read st <> (Raises e, st'))
  /\ snd (get_stats config_read st) = st
  /\ (forall e, coll_count st = Raises e ->
        get_stats config_read st = (Returns (StatsError e), st))
  /\ (forall total docs e,
        coll_count st = Returns total ->
        list_documents st = (Returns docs, st) ->
        config_read = Raises e ->
        get_stats config_read st = (Returns (StatsError e), st))
  /\ (forall total e model cfg,
        coll_count st = Returns total -> coll_get st = Raises e ->
        config_read = Returns (model, cfg) ->
        get_stats config_read st
        = (Returns (Stats 0 total model (chunk_size cfg) (chunk_overlap cfg)),
           st))
  /\ (forall total docs model cfg,
        coll_count st = Returns total ->
        list_documents st = (Returns docs, st) ->
        config_read = Returns (model, cfg) ->
        get_stats config_read st
        = (Returns (Stats (Z.of_nat (length docs)) total model
                      (chunk_size cfg) (chunk_overlap cfg)), st)).
Proof.
  pose proof (list_documents_store st) as Hst.
  pose proof (list_documents_never_raises st) as Hnr.
  assert (Hgen : forall total,
             coll_count st = Returns total ->
             get_stats config_read st
             = match fst (list_documents st) with
               | Returns docs =>
                   match config_read with
                   | Returns cfg =>
                       (Returns (Stats (Z.of_nat (length docs)) total (fst cfg)
                                   (chunk_size (snd cfg))
                                   (chunk_overlap (snd cfg))), st)
                   | Raises e => (Returns (StatsError e), st)
                   | Diverges => (Diverges, st)
                   end
               | Raises e => (Returns (StatsError e), st)
               | Diverges => (Diverges, st)
               end).
  { intros total Hcount. unfold get_stats, try_except.
    unfold bind at 1. unfold reading at 1. rewrite Hcount.
    unfold bind at 1.
    destruct (list_documents st) as [[docs|e|] s']; simpl in *; subst;
      try reflexivity.
    unfold bind, call, ret. destruct config_read as [cfg|e|]; reflexivity. }
  split; [|split; [|split; [|split; [|split]]]].
  - intros e st'. destruct (coll_count st) as [total|e0|] eqn:Hcount.
    + rewrite (Hgen total eq_refl).
      destruct (list_documents st) as [[docs|e1|] s'] eqn:Hl; simpl;
        try discriminate.
      destruct config_read; discriminate.
    + unfold get_stats, try_except, bind, reading. rewrite Hcount. discriminate.
    + unfold get_stats, try_except, bind, reading. rewrite Hcount. discriminate.
  - destruct (coll_count st) as [total|e0|] eqn:Hcount.
    + rewrite (Hgen total eq_refl).
      destruct (list_documents st) as [[docs|e1|] s'] eqn:Hl; simpl;
        try reflexivity.
      destruct config_read; reflexivity.
    + unfold get_stats, try_except, bind, reading. rewrite Hcount. reflexivity.
    + unfold get_stats, try_except, bind, reading. rewrite Hcount. reflexivity.
  - intros e Hcount. unfold get_stats, try_except, bind, reading.
    rewrite Hcount. reflexivity.
  - intros total docs e Hcount Hlist ->. rewrite (Hgen total Hcount), Hlist.
    reflexivity.
  - intros total e model cfg Hcount Hget ->. rewrite (Hgen total Hcount).
    rewrite (list_documents_get_raises st total e Hcount Hget). reflexivity.
  - intros total docs model cfg Hcount Hlist ->.
    rewrite (Hgen total Hcount), Hlist. reflexivity.
Qed.
